(** * Edit distance with transpositions and the Distle player's filter

    A shallow embedding of [edit_dist_utils.py] and of the [DistlePlayer]
    class of [distle_player.py].

    Python values are modelled as follows.
    - [int] is [Z] (unbounded, no wrap-around).
    - [str] is [string]; [s[k]] is a character, read through the same
      indexing rule as lists.
    - [list] is [list]; [l[k]] follows Python: a negative [k] counts from
      the end, and an index outside [-len, len) raises [IndexError].
    - an exception is [None] in the [option] monad.
    - [set[str]] is [gset string]; where the order of iteration over a
      set can matter, that order is an argument of the model.
    - a [dict] is the list of its items in insertion order.
    - a call to [random.choice] takes the number drawn as an argument.
    The interpreter's recursion limit is not modelled: the call stack is
    taken to be unbounded. *)

From Stdlib Require Import ZArith Ascii String.
From stdpp Require Import base option list list_numbers strings gmap.

Local Open Scope string_scope.
Local Open Scope Z_scope.
Local Open Scope list_scope.

(** ** Python sequences *)

Module Py.

(** Position designated by index [k] in a sequence of length [n]. *)
Definition norm_index (n : nat) (k : Z) : option nat :=
  if decide (0 ≤ k < Z.of_nat n) then Some (Z.to_nat k)
  else if decide (- Z.of_nat n ≤ k < 0) then Some (Z.to_nat (Z.of_nat n + k))
  else None.

(** [l[k]] *)
Definition getitem {A} (l : list A) (k : Z) : option A :=
  i ← norm_index (length l) k; l !! i.

(** [l[k] = x] *)
Definition setitem {A} (l : list A) (k : Z) (x : A) : option (list A) :=
  i ← norm_index (length l) k; Some (<[i:=x]> l).

(** [len(s)] and [s[k]] on strings *)
Definition len (s : string) : Z := Z.of_nat (String.length s).

Definition str_getitem (s : string) (k : Z) : option ascii :=
  getitem (list_ascii_of_string s) k.

(** [range(a, b)] *)
Definition range (a b : Z) : list Z := seqZ a (b - a).

(** [for x in xs: body], threading the mutated state. *)
Fixpoint for_each {A S} (xs : list A) (body : A → S → option S) (s : S)
  : option S :=
  match xs with
  | [] => Some s
  | x :: xs' => s' ← body x s; for_each xs' body s'
  end.

End Py.

Import Py.

(** ** The memoization table *)

Abbreviation table := (list (list Z)).

(** [t[i][j]] *)
Definition cell (t : table) (i j : Z) : option Z :=
  row ← getitem t i; getitem row j.

(** [t[i][j] = v]: the row object is fetched, then updated in place. *)
Definition set_cell (t : table) (i j : Z) (v : Z) : option table :=
  row ← getitem t i;
  row' ← setitem row j v;
  setitem t i row'.

(** Body of the innermost loop of [get_edit_dist_table] (lines 42-58). *)
Definition fill_cell (row_str col_str : string) (rows cols : Z)
    (row_index col_index : Z) (memo_table : table) : option table :=
  d ← cell memo_table (row_index - 1) col_index;
  let delete_value := d + 1 in
  i ← cell memo_table row_index (col_index - 1);
  let insert_value := i + 1 in
  r ← cell memo_table (row_index - 1) (col_index - 1);
  a ← str_getitem row_str (row_index - 1);
  b ← str_getitem col_str (col_index - 1);
  let replace_value := if decide (a ≠ b) then r + 1 else r in
  eligible ←
    (if decide (row_index + col_index > 2) then
       a1 ← str_getitem row_str (row_index - 1);
       b1 ← str_getitem col_str (col_index - 2);
       if decide (a1 = b1) then
         a2 ← str_getitem row_str (row_index - 2);
         b2 ← str_getitem col_str (col_index - 1);
         Some (bool_decide (a2 = b2))
       else Some false
     else Some false);
  transpose_value ←
    (if eligible : bool then
       t ← cell memo_table (row_index - 2) (col_index - 2); Some (t + 1)
     else Some (rows + cols + 1));
  set_cell memo_table row_index col_index
    (Z.min (Z.min (Z.min delete_value insert_value) replace_value)
       transpose_value).

Definition get_edit_dist_table (row_str col_str : string) : option table :=
  let rows := len row_str in
  let cols := len col_str in
  let memo_table : table :=
    replicate (Z.to_nat (rows + 1)) (replicate (Z.to_nat (cols + 1)) 0) in
  memo_table ← for_each (range 1 (cols + 1))
    (λ col_index t, set_cell t 0 col_index col_index) memo_table;
  memo_table ← for_each (range 1 (rows + 1))
    (λ row_index t, set_cell t row_index 0 row_index) memo_table;
  for_each (range 1 (rows + 1))
    (λ row_index t,
       for_each (range 1 (cols + 1))
         (λ col_index t', fill_cell row_str col_str rows cols
                            row_index col_index t') t)
    memo_table.

Definition edit_distance (s0 s1 : string) : option Z :=
  if decide (s0 = s1) then Some 0
  else t ← get_edit_dist_table s0 s1; cell t (len s0) (len s1).

(** ** The backtrace *)

(** The nested function [get_transformation] (lines 152-213).  The list
    [transform_list] is one shared object that every call appends to; the
    result is the pair of the value returned and the final content of that
    object.  [fuel] bounds the recursion depth. *)
Fixpoint get_transformation (fuel : nat) (s0 s1 : string)
    (row_index col_index : Z) (transform_list : list string)
    (memo_table : table) : option (list string * list string) :=
  match fuel with
  | O => None
  | S fuel' =>
    if decide (row_index = 0 ∧ col_index = 0)
    then Some (reverse transform_list, transform_list)
    else
      current_value ← cell memo_table row_index col_index;
      delete_value ← cell memo_table (row_index - 1) col_index;
      insert_value ← cell memo_table row_index (col_index - 1);
      r ← cell memo_table (row_index - 1) (col_index - 1);
      a ← str_getitem s0 (row_index - 1);
      b ← str_getitem s1 (col_index - 1);
      let replace_value := if decide (a ≠ b) then r + 1 else r in
      transpose_value ← cell memo_table (row_index - 2) (col_index - 2);
      if decide (replace_value ≤ current_value
                 ∧ (row_index > 0 ∧ col_index > 0))
      then
        a' ← str_getitem s0 (row_index - 1);
        b' ← str_getitem s1 (col_index - 1);
        get_transformation fuel' s0 s1 (row_index - 1) (col_index - 1)
          (if decide (a' ≠ b') then transform_list ++ ["R"]
           else transform_list)
          memo_table
      else
        take_transpose ←
          (if decide (transpose_value ≤ current_value) then
             if decide (row_index > 1) then
               if decide (col_index > 1) then
                 a1 ← str_getitem s0 (row_index - 1);
                 b1 ← str_getitem s1 (col_index - 2);
                 if decide (a1 = b1) then
                   a2 ← str_getitem s0 (row_index - 2);
                   b2 ← str_getitem s1 (col_index - 1);
                   Some (bool_decide (a2 = b2))
                 else Some false
               else Some false
             else Some false
           else Some false);
        if take_transpose : bool then
          get_transformation fuel' s0 s1 (row_index - 2) (col_index - 2)
            (transform_list ++ ["T"]) memo_table
        else if decide (insert_value ≤ current_value ∧ col_index > 0) then
          get_transformation fuel' s0 s1 row_index (col_index - 1)
            (transform_list ++ ["I"]) memo_table
        else if decide (delete_value ≤ current_value ∧ row_index > 0) then
          get_transformation fuel' s0 s1 (row_index - 1) col_index
            (transform_list ++ ["D"]) memo_table
        else Some ([], transform_list)
  end.

(** [while index > 0: l.append(sym); index -= 1] *)
Fixpoint append_while (fuel : nat) (sym : string) (index : Z)
    (l : list string) : list string :=
  match fuel with
  | O => l
  | S fuel' =>
    if decide (index > 0) then append_while fuel' sym (index - 1) (l ++ [sym])
    else l
  end.

Definition transformation_list_with_table (s0 s1 : string)
    (complete_transform_list : list string) (table_ : table)
    : option (list string) :=
  let row_index := len s0 in
  let col_index := len s1 in
  let memo_table := table_ in
  if decide (col_index ≤ 0) then
    Some (append_while (Z.to_nat row_index) "D" row_index
            complete_transform_list)
  else if decide (row_index ≤ 0) then
    Some (append_while (Z.to_nat col_index) "I" col_index
            complete_transform_list)
  else
    '(_, final_list) ← get_transformation (Z.to_nat (row_index + col_index + 1))
                         s0 s1 row_index col_index complete_transform_list
                         memo_table;
    Some final_list.

(** The [table] argument (here [table_]) is received and never read. *)
Definition get_transformation_list_with_table (s0 s1 : string)
    (table_ : table) : option (list string) :=
  t ← get_edit_dist_table s0 s1;
  transformation_list_with_table s0 s1 [] t.

Definition get_transformation_list (s0 s1 : string) : option (list string) :=
  t ← get_edit_dist_table s0 s1;
  get_transformation_list_with_table s0 s1 t.

(** ** The Distle player *)

Record DistlePlayer := {
  dictionary : gset string;
  new_dict : gset string;
  total_guesses : Z;
  first_match : string
}.

(** [DistlePlayer.get_feedback]: the set comprehension visits every word of
    the current dictionary, calls [get_transformation_list] on it and adds
    the word to a fresh set when the lists are equal; the attribute is then
    rebound to that set. *)
Definition get_feedback (self : DistlePlayer) (guess : string)
    (edit_dist : Z) (transforms : list string) : option DistlePlayer :=
  kept ← for_each (elements (dictionary self))
    (λ word (acc : gset string),
       l ← get_transformation_list guess word;
       Some (if decide (transforms = l) then {[word]} ∪ acc else acc))
    (∅ : gset string);
  Some {| dictionary := kept;
          new_dict := new_dict self;
          total_guesses := total_guesses self;
          first_match := first_match self |}.

(** ** Library calls used by the player *)

(** [random.choice(seq)]: [IndexError] on an empty sequence, otherwise the
    element at a position drawn below [len(seq)].  [draw] is the number
    the generator yields. *)
Definition random_choice {A} (draw : nat) (seq : list A) : option A :=
  match seq with
  | [] => None
  | _ => seq !! (draw mod length seq)%nat
  end.

(** [l[:n]] *)
Definition slice_to {A} (l : list A) (n : Z) : list A :=
  if decide (0 ≤ n) then take (Z.to_nat n) l
  else take (Z.to_nat (Z.of_nat (length l) + n)) l.

(** A [dict] with integer values is the list of its items in insertion
    order, as iteration and [sorted] see it. *)
Section dict.
Context {K : Type} `{EqDecision K}.

(** [k in d] *)
Definition dict_contains (d : list (K * Z)) (k : K) : bool :=
  bool_decide (k ∈ d.*1).

(** [d[k]]; [KeyError] when the key is absent. *)
Fixpoint dict_getitem (d : list (K * Z)) (k : K) : option Z :=
  match d with
  | [] => None
  | (k', v) :: d' => if decide (k' = k) then Some v else dict_getitem d' k
  end.

(** [d[k] = v]: a key already present keeps its place, a new key goes
    last. *)
Fixpoint dict_setitem (d : list (K * Z)) (k : K) (v : Z) : list (K * Z) :=
  match d with
  | [] => [(k, v)]
  | (k', v') :: d' =>
    if decide (k' = k) then (k, v) :: d'
    else (k', v') :: dict_setitem d' k v
  end.

(** [if k in d: d[k] += 1] [else: d[k] = 1] *)
Definition count_up (k : K) (d : list (K * Z)) : option (list (K * Z)) :=
  if dict_contains d k then
    v ← dict_getitem d k; Some (dict_setitem d k (v + 1))
  else Some (dict_setitem d k 1).

(** [sorted(d.items(), key=lambda item: item[1], reverse=True)]: the sort
    is stable, items with equal counts keep their order. *)
Fixpoint insert_by_count (x : K * Z) (l : list (K * Z)) : list (K * Z) :=
  match l with
  | [] => [x]
  | y :: l' => if decide (y.2 < x.2) then x :: y :: l'
               else y :: insert_by_count x l'
  end.

Definition sorted_by_count (items : list (K * Z)) : list (K * Z) :=
  foldl (λ acc x, insert_by_count x acc) [] items.

End dict.

(** ** The other methods of the player *)

(** [DistlePlayer.start_new_game].  [order] is the order in which the
    interpreter iterates over the set [dictionary] (the set is not modified
    between the iterations, so they all follow the same order); [draw] is
    the random draw of the one [random.choice] that runs. *)
Definition start_new_game (order : list string) (draw : nat)
    (dictionary : gset string) (max_guesses : Z) : option DistlePlayer :=
  length_counts ← for_each order (λ word d, count_up (len word) d) [];
  let '(most_common_length, highest_count) :=
    foldl (λ '(most, highest) '(length_, count),
             if decide (count > highest) then (length_, count)
             else (most, highest))
      (0, 0) length_counts in
  let matching_words :=
    filter (λ word, len word = most_common_length) order in
  letter_counts ← for_each matching_words
    (λ word d,
       for_each (list_ascii_of_string word)
         (λ letter d', count_up letter d') d) [];
  let sorted_letter_counts := sorted_by_count letter_counts in
  let common_letters :=
    (slice_to sorted_letter_counts most_common_length).*1 in
  let best_words :=
    filter (λ word, Forall (λ letter, letter ∈ list_ascii_of_string word)
                      common_letters) matching_words in
  first_match ← (match best_words with
                 | [] => random_choice draw matching_words
                 | _ => random_choice draw best_words
                 end);
  Some (Build_DistlePlayer dictionary dictionary 0 first_match).

(** [DistlePlayer.make_guess]: the counter is incremented, then the word
    is produced; [list(self.dictionary)] is the list of the elements of
    the set. *)
Definition make_guess (self : DistlePlayer) (draw : nat)
    : option (string * DistlePlayer) :=
  let self' := Build_DistlePlayer (dictionary self) (new_dict self)
                 (total_guesses self + 1) (first_match self) in
  if decide (total_guesses self = 0) then Some (first_match self, self')
  else
    guess ← random_choice draw (elements (dictionary self));
    Some (guess, self').

(** A run of [get_feedback] calls, one per round of the game. *)
Definition feedback_rounds (rounds : list (string * Z * list string))
    (self : DistlePlayer) : option DistlePlayer :=
  for_each rounds
    (λ '(guess, edit_dist, transforms) player,
       get_feedback player guess edit_dist transforms) self.

(** ** The specification's reading of the table and of the backtrace

    These two definitions follow the words of the specification, not the
    code; they are what the code is compared with. *)

(** Entry of a table and symbol of a sequence at a position counted from
    the start. *)
Definition entry (t : table) (i j : nat) : option Z :=
  row ← t !! i; row !! j.

Definition symbol_at (s : string) (i : nat) : option ascii :=
  list_ascii_of_string s !! i.

(** Right-hand side of the recurrence for cell [(i, j)], [1 ≤ i], [1 ≤ j]:
    the transposition term takes part only when [i > 1], [j > 1] and the
    two pairs of symbols cross. *)
Definition claimed_cell (t : table) (rowSeq colSeq : string) (i j : nat)
    : option Z :=
  up ← entry t (i - 1) j;
  left ← entry t i (j - 1);
  diag ← entry t (i - 1) (j - 1);
  a ← symbol_at rowSeq (i - 1);
  b ← symbol_at colSeq (j - 1);
  let base := Z.min (Z.min (up + 1) (left + 1))
                (diag + (if decide (a = b) then 0 else 1)) in
  if decide (1 < i ∧ 1 < j)%nat then
    a' ← symbol_at rowSeq (i - 2);
    b' ← symbol_at colSeq (j - 2);
    far ← entry t (i - 2) (j - 2);
    Some (if decide (a = b' ∧ a' = b) then Z.min base (far + 1) else base)
  else Some base.

(** The reference backtrace: Replace, then Transpose, then Insert, then
    Delete; [None] stands for the defect of a cell with no eligible
    candidate (and for exhausted [fuel]). *)
Fixpoint reference_backtrace (fuel : nat) (t : table) (s0 s1 : string)
    (i j : nat) : option (list string) :=
  match fuel with
  | O => None
  | S fuel' =>
    if decide (i = 0 ∧ j = 0)%nat then Some []
    else if decide (j = 0)%nat then Some (replicate i "D")
    else if decide (i = 0)%nat then Some (replicate j "I")
    else
      v ← entry t i j;
      a ← symbol_at s0 (i - 1);
      b ← symbol_at s1 (j - 1);
      diag ← entry t (i - 1) (j - 1);
      if decide (diag + (if decide (a = b) then 0 else 1) ≤ v) then
        rest ← reference_backtrace fuel' t s0 s1 (i - 1) (j - 1);
        Some (if decide (a = b) then rest else "R" :: rest)
      else
        transpose ←
          (if decide (1 < i ∧ 1 < j)%nat then
             a' ← symbol_at s0 (i - 2);
             b' ← symbol_at s1 (j - 2);
             far ← entry t (i - 2) (j - 2);
             Some (bool_decide (a = b' ∧ a' = b ∧ far + 1 ≤ v))
           else Some false);
        if transpose : bool then
          rest ← reference_backtrace fuel' t s0 s1 (i - 2) (j - 2);
          Some ("T" :: rest)
        else
          ins ← entry t i (j - 1);
          if decide (ins ≤ v) then
            rest ← reference_backtrace fuel' t s0 s1 i (j - 1);
            Some ("I" :: rest)
          else
            del ← entry t (i - 1) j;
            if decide (del ≤ v) then
              rest ← reference_backtrace fuel' t s0 s1 (i - 1) j;
              Some ("D" :: rest)
            else None
  end.

Definition reference_list (t : table) (s0 s1 : string)
    : option (list string) :=
  reference_backtrace (String.length s0 + String.length s1 + 1) t s0 s1
    (String.length s0) (String.length s1).

(** ** Invariants of the table under construction *)

(** [R + 1] rows of [C + 1] cells each. *)
Definition table_dims (R C : nat) (t : table) : Prop :=
  length t = S R ∧ Forall (λ row, length row = S C) t.

Definition table_nonneg (t : table) : Prop :=
  Forall (Forall (λ v, 0 ≤ v)) t.

(** Row 0 and column 0 hold the index itself. *)
Definition table_borders (R C : nat) (t : table) : Prop :=
  (∀ j, (j ≤ C)%nat → entry t 0 j = Some (Z.of_nat j))
  ∧ (∀ i, (i ≤ R)%nat → entry t i 0 = Some (Z.of_nat i)).

(** State of the table when the third loop is about to fill cell [(i, j)]:
    the shape and the borders are in place and, for equal strings, the
    diagonal cells already visited hold 0. *)
Definition filled_upto (row_str col_str : string) (i j : Z) (t : table)
    : Prop :=
  let R := String.length row_str in
  let C := String.length col_str in
  table_dims R C t ∧ table_nonneg t ∧ table_borders R C t
  ∧ (row_str = col_str →
     ∀ k, (Z.of_nat k < i ∨ (Z.of_nat k = i ∧ Z.of_nat k < j)) →
          (k ≤ R)%nat → entry t k k = Some 0).

(** No cell exceeds the larger of its two coordinates. *)
Definition table_bounded (t : table) : Prop :=
  ∀ a b v, entry t a b = Some v → v ≤ Z.max (Z.of_nat a) (Z.of_nat b).

(** Cell [(a, b)] already has its final value when the third loop is about
    to fill cell [(i, j)]. *)
Definition visited (i j : Z) (a b : nat) : Prop :=
  Z.of_nat a < i ∨ (Z.of_nat a = i ∧ Z.of_nat b < j).

(** The cells where the transposition term of the code never reads outside
    the part of the table already filled: both coordinates above 1, or the
    cell [(1, 1)] where the guard is closed. *)
Definition away_from_wrap (a b : nat) : Prop :=
  (1 < a ∧ 1 < b)%nat ∨ (a = 1 ∧ b = 1)%nat.

(** What the third loop keeps on top of [filled_upto]: the bound, the
    meaning of a 0 in a final cell, and the recurrence in the final cells
    away from the wrap-around. *)
Definition exact_upto (row_str col_str : string) (i j : Z) (t : table)
    : Prop :=
  let R := String.length row_str in
  let C := String.length col_str in
  filled_upto row_str col_str i j t
  ∧ table_bounded t
  ∧ (∀ a b, (a = 0%nat ∨ b = 0%nat ∨ visited i j a b) →
       entry t a b = Some 0 →
       a = b ∧ take a (list_ascii_of_string row_str)
               = take b (list_ascii_of_string col_str))
  ∧ (∀ a b, (1 ≤ a ≤ R)%nat → (1 ≤ b ≤ C)%nat → visited i j a b →
       away_from_wrap a b →
       entry t a b = claimed_cell t row_str col_str a b).

(** ** The transposition test and the distance without transposition *)

(** The test of lines 51-55 of [get_edit_dist_table] at one cell. *)
Definition transposition_test (row_str col_str : string)
    (row_index col_index : Z) : bool :=
  bool_decide
    (row_index + col_index > 2
     ∧ str_getitem row_str (row_index - 1)
       = str_getitem col_str (col_index - 2)
     ∧ str_getitem row_str (row_index - 2)
       = str_getitem col_str (col_index - 1)).

(** The test passes in no cell that the third loop visits. *)
Definition transposition_free (row_str col_str : string) : bool :=
  forallb
    (λ row_index,
       forallb (λ col_index,
                  negb (transposition_test row_str col_str
                          row_index col_index))
         (range 1 (len col_str + 1)))
    (range 1 (len row_str + 1)).

(** The table satisfies the stated recurrence in every cell [(i, j)] with
    [1 ≤ i] and [1 ≤ j]. *)
Definition recurrence_everywhere (t : table) (rowSeq colSeq : string)
    : bool :=
  forallb
    (λ i, forallb
            (λ j, bool_decide (entry t i j = claimed_cell t rowSeq colSeq i j))
            (seq 1 (String.length colSeq)))
    (seq 1 (String.length rowSeq)).

(** Distance by insertion, deletion and replacement alone.  The two
    sequences are consumed from their heads; on prefixes of strings it is
    applied to the reversed prefixes, whose heads are the last
    characters. *)
Fixpoint lev (x : list ascii) : list ascii → Z :=
  match x with
  | [] => λ y, Z.of_nat (length y)
  | a :: x' =>
    fix lev_a (y : list ascii) : Z :=
      match y with
      | [] => Z.of_nat (length x)
      | b :: y' =>
        Z.min (Z.min (lev x' y + 1) (lev_a y' + 1))
          (lev x' y' + (if decide (a = b) then 0 else 1))
      end
  end.

Definition prefix_lev (row_str col_str : string) (a b : nat) : Z :=
  lev (reverse (take a (list_ascii_of_string row_str)))
      (reverse (take b (list_ascii_of_string col_str))).

(** What the third loop keeps about [lev]: a final cell never exceeds it,
    and equals it when the transposition test passes nowhere. *)
Definition lev_upto (row_str col_str : string) (i j : Z) (t : table)
    : Prop :=
  exact_upto row_str col_str i j t
  ∧ ∀ a b v, (a = 0%nat ∨ b = 0%nat ∨ visited i j a b) →
      entry t a b = Some v →
      v ≤ prefix_lev row_str col_str a b
      ∧ (transposition_free row_str col_str = true →
         v = prefix_lev row_str col_str a b).

(** * Properties *)

(** ** Indexing *)

Section indexing.
Context {A : Type}.
Implicit Types (l : list A) (k : Z) (n i : nat).

Lemma norm_index_lt n k i : norm_index n k = Some i → (i < n)%nat.
Proof.
  unfold norm_index. repeat case_decide; intros; simplify_eq; lia.
Qed.

Lemma norm_index_nonneg n k :
  0 ≤ k < Z.of_nat n → norm_index n k = Some (Z.to_nat k).
Proof. intros. unfold norm_index. by rewrite decide_True. Qed.

Lemma norm_index_neg n k :
  - Z.of_nat n ≤ k < 0 → norm_index n k = Some (Z.to_nat (Z.of_nat n + k)).
Proof.
  intros. unfold norm_index.
  rewrite decide_False by lia. by rewrite decide_True.
Qed.

Lemma norm_index_is_Some n k :
  - Z.of_nat n ≤ k < Z.of_nat n → is_Some (norm_index n k).
Proof.
  intros. destruct (decide (0 ≤ k)).
  - rewrite norm_index_nonneg by lia. eauto.
  - rewrite norm_index_neg by lia. eauto.
Qed.

Lemma getitem_nonneg l k : 0 ≤ k → getitem l k = l !! Z.to_nat k.
Proof.
  intros. unfold getitem, norm_index.
  case_decide; simpl; [done|].
  rewrite decide_False by lia. simpl.
  symmetry. apply lookup_ge_None. lia.
Qed.

Lemma getitem_is_Some l k :
  - Z.of_nat (length l) ≤ k < Z.of_nat (length l) → is_Some (getitem l k).
Proof.
  intros Hk. unfold getitem.
  destruct (norm_index_is_Some _ _ Hk) as [i Hi]. rewrite Hi. simpl.
  apply lookup_lt_is_Some. by eapply norm_index_lt.
Qed.

Lemma getitem_elem_of l k x : getitem l k = Some x → x ∈ l.
Proof.
  unfold getitem. destruct (norm_index _ _); simpl; [|done].
  intros. by eapply list_elem_of_lookup_2.
Qed.
End indexing.

Lemma length_list_ascii (s : string) :
  length (list_ascii_of_string s) = String.length s.
Proof. induction s; simpl; congruence. Qed.

Lemma str_getitem_is_Some (s : string) (k : Z) :
  - len s ≤ k < len s → is_Some (str_getitem s k).
Proof.
  intros. apply getitem_is_Some. rewrite length_list_ascii. done.
Qed.

(** ** Loops *)

Lemma for_each_inv {A S} (P : list A → S → Prop) (body : A → S → option S)
    (xs : list A) (s : S) :
  P [] s →
  (∀ done x rest s, xs = done ++ x :: rest → P done s →
     ∃ s', body x s = Some s' ∧ P (done ++ [x]) s') →
  ∃ s', for_each xs body s = Some s' ∧ P xs s'.
Proof.
  intros Hinit Hstep.
  cut (∀ rest done s, xs = done ++ rest → P done s →
         ∃ s', for_each rest body s = Some s' ∧ P xs s').
  { intros Hcut. by apply (Hcut xs []). }
  clear s Hinit. intros rest. induction rest as [|x rest IH]; intros done s Hxs HP.
  - simpl. exists s. rewrite app_nil_r in Hxs. by subst.
  - destruct (Hstep done x rest s Hxs HP) as (s' & Hbody & HP').
    simpl. rewrite Hbody. simpl.
    apply (IH (done ++ [x])); [|done].
    by rewrite <- app_assoc.
Qed.

Lemma for_each_range_inv {S} (P : Z → S → Prop) (body : Z → S → option S)
    (a b : Z) (s : S) :
  a ≤ b →
  P a s →
  (∀ k s, a ≤ k < b → P k s → ∃ s', body k s = Some s' ∧ P (k + 1) s') →
  ∃ s', for_each (range a b) body s = Some s' ∧ P b s'.
Proof.
  intros Hab Hinit Hstep.
  destruct (for_each_inv (λ done, P (a + Z.of_nat (length done))) body
              (range a b) s) as (s' & Hrun & HP).
  - simpl. by rewrite Z.add_0_r.
  - intros done x rest s0 Hsplit HP.
    assert (range a b !! length done = Some x) as Hx.
    { rewrite Hsplit. by apply list_lookup_middle. }
    unfold range in Hx. apply lookup_seqZ in Hx as [-> Hlt].
    destruct (Hstep (a + Z.of_nat (length done)) s0) as (s' & ? & ?);
      [lia|done|].
    exists s'. split; [done|].
    rewrite length_app. simpl.
    by replace (a + Z.of_nat (length done + 1)%nat)
      with (a + Z.of_nat (length done) + 1) by lia.
  - exists s'. split; [done|].
    unfold range in HP. rewrite length_seqZ in HP.
    by replace (a + Z.of_nat (Z.to_nat (b - a))) with b in HP by lia.
Qed.

(** ** Reading and writing cells *)

Section cells.
Context (R C : nat) (t : table).
Hypothesis Hdims : table_dims R C t.

Lemma cell_nonneg_index (i j : Z) :
  0 ≤ i → 0 ≤ j → cell t i j = entry t (Z.to_nat i) (Z.to_nat j).
Proof.
  intros. unfold cell, entry. rewrite (getitem_nonneg t i) by lia.
  destruct (t !! Z.to_nat i); simpl; [|done]. by apply getitem_nonneg.
Qed.

Lemma cell_is_Some (i j : Z) :
  - (Z.of_nat R + 1) ≤ i ≤ Z.of_nat R →
  - (Z.of_nat C + 1) ≤ j ≤ Z.of_nat C →
  is_Some (cell t i j).
Proof.
  intros Hi Hj. destruct Hdims as [Hlen Hrows]. unfold cell.
  destruct (getitem_is_Some t i) as [row Hrow]; [lia|].
  rewrite Hrow. simpl. apply getitem_is_Some.
  apply getitem_elem_of in Hrow.
  rewrite Forall_forall in Hrows. rewrite (Hrows _ Hrow). lia.
Qed.

Lemma entry_is_Some (a b : nat) :
  (a ≤ R)%nat → (b ≤ C)%nat → is_Some (entry t a b).
Proof.
  intros. rewrite <- (Nat2Z.id a), <- (Nat2Z.id b).
  rewrite <- cell_nonneg_index by lia. apply cell_is_Some; lia.
Qed.

Lemma cell_in_table (i j v : Z) :
  cell t i j = Some v → ∃ row, row ∈ t ∧ v ∈ row.
Proof.
  unfold cell. destruct (getitem t i) as [row|] eqn:Hrow; simpl; [|done].
  intros Hv. exists row. eauto using getitem_elem_of.
Qed.

Lemma cell_nonneg (i j v : Z) :
  table_nonneg t → cell t i j = Some v → 0 ≤ v.
Proof.
  intros Hnn Hv. apply cell_in_table in Hv as (row & Hrow & Hv).
  unfold table_nonneg in Hnn. rewrite Forall_forall in Hnn.
  specialize (Hnn _ Hrow). rewrite Forall_forall in Hnn. auto.
Qed.

(** Writing a cell inside the table succeeds, changes that cell only and
    keeps the shape. *)
Lemma set_cell_spec (i j v : Z) :
  0 ≤ i ≤ Z.of_nat R → 0 ≤ j ≤ Z.of_nat C →
  ∃ t', set_cell t i j v = Some t'
        ∧ table_dims R C t'
        ∧ entry t' (Z.to_nat i) (Z.to_nat j) = Some v
        ∧ (∀ a b, (a, b) ≠ (Z.to_nat i, Z.to_nat j) →
             entry t' a b = entry t a b)
        ∧ (table_nonneg t → 0 ≤ v → table_nonneg t').
Proof.
  intros Hi Hj. destruct Hdims as [Hlen Hrows]. unfold set_cell.
  rewrite getitem_nonneg by lia.
  destruct (lookup_lt_is_Some_2 t (Z.to_nat i)) as [row Hrow]; [lia|].
  rewrite Hrow. simpl.
  assert (length row = S C) as Hrowlen.
  { eapply (Forall_lookup_1 _ _ _ _ Hrows Hrow). }
  unfold setitem. rewrite !norm_index_nonneg by lia. simpl.
  eexists. split; [done|]. split; [|split; [|split]].
  - split; [by rewrite length_insert|].
    apply Forall_insert; [done|]. by rewrite length_insert.
  - unfold entry. rewrite list_lookup_insert_eq by lia. simpl.
    apply list_lookup_insert_eq. lia.
  - intros a b Hne. unfold entry.
    destruct (decide (a = Z.to_nat i)) as [->|].
    + rewrite list_lookup_insert_eq by lia. rewrite Hrow. simpl.
      apply list_lookup_insert_ne. congruence.
    + by rewrite list_lookup_insert_ne.
  - intros Hnn Hv. unfold table_nonneg in *.
    apply Forall_insert; [done|]. apply Forall_insert; [|done].
    by eapply Forall_lookup_1.
Qed.
End cells.

(** ** Building the table *)

Section build.
Context (row_str col_str : string).
Let R := String.length row_str.
Let C := String.length col_str.

(** One step of the innermost loop: every read is inside the table, the
    value written is not negative, and it is 0 when the diagonal
    neighbour holds 0 under equal characters. *)
Lemma fill_cell_spec (t : table) (i j : Z) :
  table_dims R C t → table_nonneg t →
  1 ≤ i ≤ Z.of_nat R → 1 ≤ j ≤ Z.of_nat C →
  ∃ v, fill_cell row_str col_str (len row_str) (len col_str) i j t
         = set_cell t i j v
       ∧ 0 ≤ v
       ∧ (cell t (i - 1) (j - 1) = Some 0 →
          str_getitem row_str (i - 1) = str_getitem col_str (j - 1) →
          v = 0).
Proof.
  intros Hdims Hnn Hi Hj. unfold fill_cell.
  destruct (cell_is_Some R C t Hdims (i - 1) j) as [d Hd]; [lia..|].
  destruct (cell_is_Some R C t Hdims i (j - 1)) as [ins Hins]; [lia..|].
  destruct (cell_is_Some R C t Hdims (i - 1) (j - 1)) as [r Hr]; [lia..|].
  destruct (cell_is_Some R C t Hdims (i - 2) (j - 2)) as [x Hx]; [lia..|].
  destruct (str_getitem_is_Some row_str (i - 1)) as [a Ha];
    [unfold len; lia|].
  destruct (str_getitem_is_Some col_str (j - 1)) as [b Hb];
    [unfold len; lia|].
  destruct (str_getitem_is_Some row_str (i - 2)) as [a2 Ha2];
    [unfold len; lia|].
  destruct (str_getitem_is_Some col_str (j - 2)) as [b1 Hb1];
    [unfold len; lia|].
  pose proof (cell_nonneg t _ _ _ Hnn Hd).
  pose proof (cell_nonneg t _ _ _ Hnn Hins).
  pose proof (cell_nonneg t _ _ _ Hnn Hr).
  pose proof (cell_nonneg t _ _ _ Hnn Hx).
  rewrite Hd, Hins, Hr, Ha, Hb. simpl.
  assert (0 ≤ len row_str + len col_str + 1) by (unfold len; lia).
  set (rv := if decide (a ≠ b) then r + 1 else r).
  assert (0 ≤ rv) by (unfold rv; case_decide; lia).
  assert (r = 0 → a = b → rv = 0) as Hrv.
  { intros Hr0 Hab. unfold rv. rewrite Hr0.
    rewrite decide_False; [done|]. intros Hne. by apply Hne. }
  clearbody rv.
  assert (∀ tv, 0 ≤ tv →
    ∃ v, set_cell t i j (Z.min (Z.min (Z.min (d + 1) (ins + 1)) rv) tv)
         = set_cell t i j v
       ∧ 0 ≤ v
       ∧ (Some r = Some 0 → Some a = Some b → v = 0)) as Hfinish.
  { intros tv Htv. eexists. split; [done|]. split; [lia|].
    intros ? ?. simplify_eq. rewrite Hrv by done. lia. }
  destruct (decide (i + j > 2)); simpl; [|by apply Hfinish].
  rewrite Hb1. simpl.
  destruct (decide (a = b1)); simpl; [|by apply Hfinish].
  rewrite Ha2. simpl.
  destruct (bool_decide (a2 = b)); simpl; [|by apply Hfinish].
  rewrite Hx. simpl. apply Hfinish. lia.
Qed.

Lemma fill_cell_step (t : table) (i j : Z) :
  1 ≤ i ≤ Z.of_nat R → 1 ≤ j ≤ Z.of_nat C →
  filled_upto row_str col_str i j t →
  ∃ t', fill_cell row_str col_str (len row_str) (len col_str) i j t
          = Some t'
        ∧ filled_upto row_str col_str i (j + 1) t'.
Proof.
  intros Hi Hj (Hdims & Hnn & [Hrow0 Hcol0] & Hdiag).
  destruct (fill_cell_spec t i j) as (v & -> & Hv & Hzero); [done..|].
  destruct (set_cell_spec R C t Hdims i j v)
    as (t' & -> & Hdims' & Hnew & Hother & Hnn'); [lia..|].
  exists t'. split; [done|].
  split; [done|]. split; [by apply Hnn'|]. split; [split|].
  - intros b Hb. rewrite Hother; [by apply Hrow0|].
    intros [=]. lia.
  - intros a Ha. rewrite Hother; [by apply Hcol0|].
    intros [=]. lia.
  - intros Heq k Hk HkR.
    destruct (decide (Z.of_nat k = i ∧ Z.of_nat k = j)) as [[Hki Hkj]|Hne].
    + replace k with (Z.to_nat i) at 1 by lia.
      replace k with (Z.to_nat j) by lia.
      rewrite Hnew. f_equal. apply Hzero.
      * rewrite (cell_nonneg_index t) by lia.
        replace (Z.to_nat (j - 1)) with (Z.to_nat (i - 1)) by lia.
        apply Hdiag; [done|lia|lia].
      * rewrite Heq. f_equal. lia.
    + rewrite Hother; [apply Hdiag; [done|lia|done]|].
      intros [=]. lia.
Qed.

Lemma initial_table :
  let t0 : table := replicate (S R) (replicate (S C) 0) in
  table_dims R C t0 ∧ table_nonneg t0
  ∧ ∀ a b, (a ≤ R)%nat → (b ≤ C)%nat → entry t0 a b = Some 0.
Proof.
  intros t0. unfold t0. clear t0. split; [|split].
  - split; [by rewrite length_replicate|].
    apply Forall_replicate. by rewrite length_replicate.
  - apply Forall_replicate, Forall_replicate. done.
  - intros a b Ha Hb. unfold entry.
    rewrite lookup_replicate_2 by lia.
    apply (lookup_replicate_2 (S C) 0 b). lia.
Qed.

(** The three loops run to completion; the table has its shape, its
    borders, no negative cell and, for equal strings, a zero diagonal. *)
Lemma get_edit_dist_table_spec :
  ∃ t, get_edit_dist_table row_str col_str = Some t
       ∧ table_dims R C t ∧ table_nonneg t ∧ table_borders R C t
       ∧ (row_str = col_str → ∀ k, (k ≤ R)%nat → entry t k k = Some 0).
Proof.
  unfold get_edit_dist_table.
  replace (Z.to_nat (len row_str + 1)) with (S R) by (unfold len, R; lia).
  replace (Z.to_nat (len col_str + 1)) with (S C) by (unfold len, C; lia).
  destruct initial_table as (Hdims0 & Hnn0 & Hzero0).
  (* first loop: row 0 *)
  destruct (for_each_range_inv
    (λ k t, table_dims R C t ∧ table_nonneg t
            ∧ ∀ b, (b ≤ C)%nat → Z.of_nat b < k →
                   entry t 0 b = Some (Z.of_nat b))
    (λ col_index t, set_cell t 0 col_index col_index)
    1 (len col_str + 1) (replicate (S R) (replicate (S C) 0)))
    as (t1 & -> & Hdims1 & Hnn1 & Hrow0).
  { unfold len. lia. }
  { split; [done|]. split; [done|]. intros b ? ?.
    replace b with 0%nat by lia. apply Hzero0; lia. }
  { intros k t Hk (Hdims & Hnn & Hrow).
    destruct (set_cell_spec R C t Hdims 0 k k)
      as (t' & -> & Hdims' & Hnew & Hother & Hnn');
      [lia|unfold len in Hk; fold C in Hk; lia|].
    exists t'. split; [done|]. split; [done|].
    split; [apply Hnn'; [done|lia]|].
    intros b Hb Hbk. destruct (decide (Z.of_nat b = k)) as [<-|].
    - change 0%nat with (Z.to_nat 0). rewrite <- (Nat2Z.id b) at 1. done.
    - rewrite Hother; [apply Hrow; [done|lia]|]. intros [=]. lia. }
  simpl.
  (* second loop: column 0 *)
  destruct (for_each_range_inv
    (λ k t, table_dims R C t ∧ table_nonneg t
            ∧ (∀ b, (b ≤ C)%nat → entry t 0 b = Some (Z.of_nat b))
            ∧ ∀ a, (a ≤ R)%nat → Z.of_nat a < k →
                   entry t a 0 = Some (Z.of_nat a))
    (λ row_index t, set_cell t row_index 0 row_index)
    1 (len row_str + 1) t1)
    as (t2 & -> & Hdims2 & Hnn2 & Hrow0' & Hcol0).
  { unfold len. lia. }
  { split; [done|]. split; [done|]. split.
    - intros b Hb. apply Hrow0; [done|]. unfold len. fold C. lia.
    - intros a ? ?. replace a with 0%nat by lia.
      apply Hrow0; [lia|]. unfold len. lia. }
  { intros k t Hk (Hdims & Hnn & Hrow & Hcol).
    destruct (set_cell_spec R C t Hdims k 0 k)
      as (t' & -> & Hdims' & Hnew & Hother & Hnn');
      [unfold len in Hk; fold R in Hk; lia|lia|].
    exists t'. split; [done|]. split; [done|].
    split; [apply Hnn'; [done|lia]|]. split.
    - intros b Hb. rewrite Hother; [by apply Hrow|]. intros [=]. lia.
    - intros a Ha Hak. destruct (decide (Z.of_nat a = k)) as [<-|].
      + change 0%nat with (Z.to_nat 0). rewrite <- (Nat2Z.id a) at 1. done.
      + rewrite Hother; [apply Hcol; [done|lia]|]. intros [=]. lia. }
  simpl.
  (* third loop: the inner cells, row by row *)
  destruct (for_each_range_inv
    (λ i t, filled_upto row_str col_str i 1 t)
    (λ row_index t,
       for_each (range 1 (len col_str + 1))
         (λ col_index t', fill_cell row_str col_str (len row_str)
                            (len col_str) row_index col_index t') t)
    1 (len row_str + 1) t2)
    as (t3 & -> & Hdims3 & Hnn3 & Hborders3 & Hdiag3).
  { unfold len. lia. }
  { split; [done|]. split; [done|]. split; [split|].
    - done.
    - intros a Ha. apply Hcol0; [done|]. unfold len. fold R. lia.
    - intros _ k Hk _. replace k with 0%nat by lia. apply Hrow0'. lia. }
  { intros i t Hi Hfilled.
    destruct (for_each_range_inv
      (λ j t', filled_upto row_str col_str i j t')
      (λ col_index t', fill_cell row_str col_str (len row_str)
                         (len col_str) i col_index t')
      1 (len col_str + 1) t) as (t' & -> & Hfilled').
    { unfold len. lia. }
    { done. }
    { intros j t' Hj.
      apply fill_cell_step; unfold R, C; unfold len in Hi, Hj; lia. }
    exists t'. split; [done|].
    destruct Hfilled' as (? & ? & ? & Hdiag).
    split; [done|]. split; [done|]. split; [done|].
    intros Heq k Hk HkR. apply Hdiag; [done| |done].
    destruct (decide (Z.of_nat k < i)); [by left|right].
    split; [lia|]. rewrite <- Heq. unfold len. lia. }
  exists t3. split; [done|]. split; [done|]. split; [done|]. split; [done|].
  intros Heq k Hk. apply Hdiag3; [done| |done].
  left. unfold len. fold R. lia.
Qed.
End build.

(** ** The backtrace *)

Lemma append_while_replicate (n : nat) (sym : string) (l : list string) :
  append_while n sym (Z.of_nat n) l = l ++ replicate n sym.
Proof.
  revert l. induction n as [|n IH]; intros l.
  - simpl. by rewrite app_nil_r.
  - cbn [append_while]. rewrite decide_True by lia.
    replace (Z.of_nat (S n) - 1) with (Z.of_nat n) by lia.
    rewrite IH. by rewrite <- app_assoc.
Qed.

Section backtrace.
Context (s0 s1 : string) (t : table).
Let R := String.length s0.
Let C := String.length s1.
Hypothesis Hdims : table_dims R C t.
Hypothesis HR : (1 ≤ R)%nat.
Hypothesis HC : (1 ≤ C)%nat.

Ltac read_cell i j v Hv :=
  destruct (cell_is_Some R C t Hdims i j) as [v Hv]; [lia..|];
  rewrite Hv; simpl.

Ltac read_char s k a Ha :=
  destruct (str_getitem_is_Some s k) as [a Ha];
  [unfold len; fold R; fold C; lia|]; rewrite ?Ha; simpl.

(** From any cell of the table the trace returns: no read leaves the
    table or the strings, and [i + j + 1] calls are enough. *)
Lemma get_transformation_total (fuel : nat) :
  ∀ (i j : Z) (l : list string),
    0 ≤ i ≤ Z.of_nat R → 0 ≤ j ≤ Z.of_nat C →
    i + j < Z.of_nat fuel →
    is_Some (get_transformation fuel s0 s1 i j l t).
Proof.
  induction fuel as [|fuel IH]; intros i j l Hi Hj Hfuel; [lia|].
  cbn [get_transformation].
  destruct (decide (i = 0 ∧ j = 0)) as [|Hnz]; [eauto|].
  read_cell i j cur Hcur.
  read_cell (i - 1) j del Hdel.
  read_cell i (j - 1) ins Hins.
  read_cell (i - 1) (j - 1) r Hr.
  read_char s0 (i - 1) a Ha.
  read_char s1 (j - 1) b Hb.
  read_cell (i - 2) (j - 2) tr Htr.
  destruct (decide (_ ∧ (i > 0 ∧ j > 0))) as [(_ & ? & ?)|_].
  { apply IH; lia. }
  assert (∀ l' : list string,
    is_Some
      (if decide (ins ≤ cur ∧ j > 0)
       then get_transformation fuel s0 s1 i (j - 1) (l' ++ ["I"]) t
       else if decide (del ≤ cur ∧ i > 0)
       then get_transformation fuel s0 s1 (i - 1) j (l' ++ ["D"]) t
       else Some ([], l'))) as Hrest.
  { intros l'. destruct (decide (ins ≤ cur ∧ j > 0)) as [[_ ?]|_].
    { apply IH; lia. }
    destruct (decide (del ≤ cur ∧ i > 0)) as [[_ ?]|_]; [|eauto].
    apply IH; lia. }
  destruct (decide (tr ≤ cur)); simpl; [|by apply Hrest].
  destruct (decide (i > 1)); simpl; [|by apply Hrest].
  destruct (decide (j > 1)); simpl; [|by apply Hrest].
  rewrite ?Ha; simpl.
  read_char s1 (j - 2) b1 Hb1.
  destruct (decide (a = b1)); simpl; [|by apply Hrest].
  read_char s0 (i - 2) a2 Ha2. rewrite ?Hb; simpl.
  destruct (bool_decide (a2 = b)); simpl; [|by apply Hrest].
  apply IH; lia.
Qed.

(** On equal strings and a zero diagonal the trace walks the diagonal
    and appends nothing. *)
Lemma get_transformation_diagonal (fuel : nat) :
  s0 = s1 →
  (∀ k, (k ≤ R)%nat → entry t k k = Some 0) →
  ∀ (k : Z) (l : list string),
    0 ≤ k ≤ Z.of_nat R → k < Z.of_nat fuel →
    get_transformation fuel s0 s1 k k l t = Some (reverse l, l).
Proof.
  intros Heq Hdiag.
  assert (C = R) as HCR by (unfold C, R; by rewrite Heq).
  induction fuel as [|fuel IH]; intros k l Hk Hfuel; [lia|].
  cbn [get_transformation].
  destruct (decide (k = 0 ∧ k = 0)) as [|Hnz]; [done|].
  assert (cell t k k = Some 0) as Hcur.
  { rewrite (cell_nonneg_index t) by lia. apply Hdiag. lia. }
  assert (cell t (k - 1) (k - 1) = Some 0) as Hr.
  { rewrite (cell_nonneg_index t) by lia. apply Hdiag. lia. }
  rewrite Hcur. simpl.
  read_cell (k - 1) k del Hdel.
  read_cell k (k - 1) ins Hins.
  rewrite Hr. simpl.
  read_char s0 (k - 1) a Ha.
  assert (str_getitem s1 (k - 1) = Some a) as Hb by (by rewrite <- Heq).
  rewrite !Hb. simpl.
  read_cell (k - 2) (k - 2) tr Htr.
  rewrite !(decide_False (P := a ≠ a)) by (intros Hne; by apply Hne).
  rewrite decide_True by lia.
  apply IH; lia.
Qed.
End backtrace.

(** ** The public functions *)

Lemma get_transformation_list_unfold (s0 s1 : string) :
  ∃ t, get_edit_dist_table s0 s1 = Some t
       ∧ table_dims (String.length s0) (String.length s1) t
       ∧ table_borders (String.length s0) (String.length s1) t
       ∧ (s0 = s1 → ∀ k, (k ≤ String.length s0)%nat → entry t k k = Some 0)
       ∧ get_transformation_list s0 s1
         = transformation_list_with_table s0 s1 [] t.
Proof.
  destruct (get_edit_dist_table_spec s0 s1) as (t & Ht & ? & _ & ? & ?).
  exists t. repeat (split; [done|]).
  unfold get_transformation_list. rewrite Ht.
  change (get_transformation_list_with_table s0 s1 t
          = transformation_list_with_table s0 s1 [] t).
  unfold get_transformation_list_with_table. by rewrite Ht.
Qed.

Lemma get_transformation_list_total (s0 s1 : string) :
  is_Some (get_transformation_list s0 s1).
Proof.
  destruct (get_transformation_list_unfold s0 s1)
    as (t & _ & Hdims & _ & _ & ->).
  unfold transformation_list_with_table.
  destruct (decide (len s1 ≤ 0)); [eauto|].
  destruct (decide (len s0 ≤ 0)); [eauto|].
  assert (1 ≤ String.length s0)%nat as HR by (unfold len in *; lia).
  assert (1 ≤ String.length s1)%nat as HC by (unfold len in *; lia).
  destruct (get_transformation_total s0 s1 t Hdims HR HC
              (Z.to_nat (len s0 + len s1 + 1)) (len s0) (len s1) [])
    as [[ret final] Hrun]; unfold len in *; try lia.
  rewrite Hrun. simpl. eauto.
Qed.

Lemma transformation_list_empty_target (s : string) (t : table) :
  transformation_list_with_table s "" [] t
  = Some (replicate (String.length s) "D").
Proof.
  unfold transformation_list_with_table.
  rewrite decide_True by (unfold len; simpl; lia).
  unfold len. rewrite Nat2Z.id. by rewrite append_while_replicate.
Qed.

Lemma transformation_list_empty_source (s : string) (t : table) :
  transformation_list_with_table "" s [] t
  = Some (replicate (String.length s) "I").
Proof.
  unfold transformation_list_with_table.
  destruct (decide (len s ≤ 0)) as [Hs|Hs].
  - assert (String.length s = 0%nat) as -> by (unfold len in Hs; lia).
    done.
  - rewrite decide_True by (unfold len; simpl; lia).
    unfold len. rewrite Nat2Z.id. by rewrite append_while_replicate.
Qed.

(** * The claims *)

(** C1 (fails at cell (1, 3) of the table for "a" and "aaa"): the code's
    guard [row_index + col_index > 2] admits the transposition term in row
    1, where [row_index - 2] is [-1] and designates the last row and the
    last character.  The cell receives 1, where the stated recurrence, on
    the very same table, gives 2. *)
Theorem table_transposition_in_first_row :
  get_edit_dist_table "a" "aaa" = Some [[0; 1; 2; 3]; [1; 0; 1; 1]]
  ∧ cell [[0; 1; 2; 3]; [1; 0; 1; 1]] 1 3 = Some 1
  ∧ claimed_cell [[0; 1; 2; 3]; [1; 0; 1; 1]] "a" "aaa" 1 3 = Some 2.
Proof. by vm_compute. Qed.

(** C2 (fails on "aba" and "ab"): at cell (3, 2) the code compares the
    transposition predecessor itself, not the predecessor plus 1, with the
    current value, takes Transpose off the minimal path and returns
    T, D; the reference backtrace on the same table returns D. *)
Theorem backtrace_takes_costly_transposition :
  get_transformation_list "aba" "ab" = Some ["T"; "D"]
  ∧ (t ← get_edit_dist_table "aba" "ab"; reference_list t "aba" "ab")
    = Some ["D"].
Proof. by vm_compute. Qed.

(** C3 (fails on "aba" and "ab"): the distance is 1 and the list has two
    elements. *)
Theorem distance_is_not_list_length :
  edit_distance "aba" "ab" = Some 1
  ∧ length <$> get_transformation_list "aba" "ab" = Some 2%nat.
Proof. by vm_compute. Qed.

(** C4: the worked example of the docstring: the distance between "hack"
    and "fkc" is 3, and the two lists are T, R, D and T, R, I. *)
Theorem hack_fkc_example :
  edit_distance "hack" "fkc" = Some 3
  ∧ get_transformation_list "hack" "fkc" = Some ["T"; "R"; "D"]
  ∧ get_transformation_list "fkc" "hack" = Some ["T"; "R"; "I"].
Proof. by vm_compute. Qed.

(** C6: against the empty string the distance is the length of the other
    string, and the list is that many I (empty source) or that many D
    (empty target). *)
Theorem empty_string_cases (s : string) :
  edit_distance "" s = Some (len s)
  ∧ get_transformation_list "" s = Some (replicate (String.length s) "I")
  ∧ edit_distance s "" = Some (len s)
  ∧ get_transformation_list s "" = Some (replicate (String.length s) "D").
Proof.
  split; [|split; [|split]].
  - unfold edit_distance. case_decide; [by subst|].
    destruct (get_edit_dist_table_spec "" s) as (t & -> & ? & _ & [Hrow _] & _).
    simpl. rewrite (cell_nonneg_index t) by (unfold len; simpl; lia).
    unfold len. rewrite !Nat2Z.id. by apply Hrow.
  - destruct (get_transformation_list_unfold "" s) as (t & _ & _ & _ & _ & ->).
    apply transformation_list_empty_source.
  - unfold edit_distance. case_decide; [by subst|].
    destruct (get_edit_dist_table_spec s "") as (t & -> & ? & _ & [_ Hcol] & _).
    simpl. rewrite (cell_nonneg_index t) by (unfold len; simpl; lia).
    unfold len. rewrite !Nat2Z.id. by apply Hcol.
  - destruct (get_transformation_list_unfold s "") as (t & _ & _ & _ & _ & ->).
    apply transformation_list_empty_target.
Qed.

(** C7: a string is at distance 0 from itself and its list is empty. *)
Theorem identical_strings (s : string) :
  edit_distance s s = Some 0 ∧ get_transformation_list s s = Some [].
Proof.
  split.
  - unfold edit_distance. by rewrite decide_True.
  - destruct (get_transformation_list_unfold s s)
      as (t & _ & Hdims & _ & Hdiag & ->).
    unfold transformation_list_with_table.
    destruct (decide (len s ≤ 0)) as [Hs|Hs].
    { assert (String.length s = 0%nat) as Hlen by (unfold len in Hs; lia).
      unfold len. by rewrite Hlen. }
    assert (1 ≤ String.length s)%nat as Hlen by (unfold len in *; lia).
    rewrite (get_transformation_diagonal s s t Hdims Hlen Hlen);
      unfold len in *; auto with lia.
Qed.

(** C8 (fails on "ab" and "xabb"): the distance is 1 one way and 2 the
    other way. *)
Theorem distance_not_symmetric :
  edit_distance "ab" "xabb" = Some 1 ∧ edit_distance "xabb" "ab" = Some 2.
Proof. by vm_compute. Qed.

(** C9: [get_feedback] returns, and the new dictionary is exactly the set
    of the words of the previous one whose list from [guess] equals
    [transforms]; it is a subset of the previous dictionary. *)
Theorem get_feedback_filters (self : DistlePlayer) (guess : string)
    (edit_dist : Z) (transforms : list string) :
  ∃ self', get_feedback self guess edit_dist transforms = Some self'
    ∧ dictionary self'
      = filter (λ w, get_transformation_list guess w = Some transforms)
          (dictionary self)
    ∧ dictionary self' ⊆ dictionary self.
Proof.
  unfold get_feedback.
  destruct (for_each_inv
    (λ done (acc : gset string),
       ∀ w, w ∈ acc ↔
            w ∈ done ∧ get_transformation_list guess w = Some transforms)
    (λ word (acc : gset string),
       l ← get_transformation_list guess word;
       Some (if decide (transforms = l) then {[word]} ∪ acc else acc))
    (elements (dictionary self)) ∅) as (kept & -> & Hkept).
  { intros w. rewrite elem_of_nil, elem_of_empty. tauto. }
  { intros done x rest acc _ Hacc.
    destruct (get_transformation_list_total guess x) as [l Hl].
    rewrite Hl. simpl. eexists. split; [done|].
    intros w. rewrite elem_of_app, list_elem_of_singleton.
    case_decide as Heq.
    - rewrite elem_of_union, elem_of_singleton, Hacc. subst l.
      split; [intros [->|[? ?]]; auto|intros [[?| ->] ?]; auto].
    - rewrite Hacc. split; [intros [? ?]; auto|].
      intros [[?| ->] Hw]; [done|]. congruence. }
  simpl. eexists. split; [done|]. simpl.
  assert (kept = filter
            (λ w, get_transformation_list guess w = Some transforms)
            (dictionary self)) as ->.
  { apply set_eq. intros w.
    rewrite Hkept, elem_of_filter, elem_of_elements. tauto. }
  split; [done|]. intros w. rewrite elem_of_filter. tauto.
Qed.

(** C10: whatever table is passed, [get_transformation_list_with_table]
    returns the list that [get_transformation_list] returns, because it
    builds its own table from the two strings. *)
Theorem table_argument_ignored (s0 s1 : string) (t : table) :
  ∃ l, get_transformation_list s0 s1 = Some l
       ∧ get_transformation_list_with_table s0 s1 t = Some l.
Proof.
  destruct (get_transformation_list_total s0 s1) as [l Hl].
  exists l. split; [done|].
  revert Hl. unfold get_transformation_list.
  destruct (get_edit_dist_table s0 s1) as [t'|]; simpl; [|done].
  unfold get_transformation_list_with_table. done.
Qed.

(** * Further properties of the table *)

Lemma entry_Some_range (R C : nat) (t : table) (a b : nat) (v : Z) :
  table_dims R C t → entry t a b = Some v → (a ≤ R)%nat ∧ (b ≤ C)%nat.
Proof.
  intros [Hlen Hrows]. unfold entry.
  destruct (t !! a) as [row|] eqn:Hrow; simpl; [|done].
  intros Hb. pose proof (Forall_lookup_1 _ _ _ _ Hrows Hrow) as Hrowlen.
  apply lookup_lt_Some in Hrow, Hb. simpl in Hrowlen. lia.
Qed.

Lemma str_getitem_symbol_at (s : string) (k : Z) :
  0 ≤ k → str_getitem s k = symbol_at s (Z.to_nat k).
Proof. intros. unfold str_getitem, symbol_at. by apply getitem_nonneg. Qed.

(** [claimed_cell] reads cells above or to the left of its own only. *)
Lemma claimed_cell_ext (t t' : table) (row_str col_str : string) (a b : nat) :
  (1 ≤ a)%nat → (1 ≤ b)%nat →
  (∀ a' b', (a' < a ∨ (a' = a ∧ b' < b))%nat →
            entry t' a' b' = entry t a' b') →
  claimed_cell t' row_str col_str a b = claimed_cell t row_str col_str a b.
Proof.
  intros Ha Hb Hsame. unfold claimed_cell.
  rewrite (Hsame (a - 1)%nat b) by lia.
  rewrite (Hsame a (b - 1)%nat) by lia.
  rewrite (Hsame (a - 1)%nat (b - 1)%nat) by lia.
  rewrite (Hsame (a - 2)%nat (b - 2)%nat) by lia.
  done.
Qed.

Section exact.
Context (row_str col_str : string).
Let R := String.length row_str.
Let C := String.length col_str.

(** The value written by one step of the innermost loop, in full. *)
Lemma fill_cell_exact (t : table) (i j : Z) :
  table_dims R C t →
  1 ≤ i ≤ Z.of_nat R → 1 ≤ j ≤ Z.of_nat C →
  ∃ d ins r x a b a2 b1,
    cell t (i - 1) j = Some d
    ∧ cell t i (j - 1) = Some ins
    ∧ cell t (i - 1) (j - 1) = Some r
    ∧ cell t (i - 2) (j - 2) = Some x
    ∧ str_getitem row_str (i - 1) = Some a
    ∧ str_getitem col_str (j - 1) = Some b
    ∧ str_getitem row_str (i - 2) = Some a2
    ∧ str_getitem col_str (j - 2) = Some b1
    ∧ fill_cell row_str col_str (len row_str) (len col_str) i j t
      = set_cell t i j
          (Z.min (Z.min (Z.min (d + 1) (ins + 1))
                    (if decide (a ≠ b) then r + 1 else r))
             (if decide (i + j > 2 ∧ a = b1 ∧ a2 = b) then x + 1
              else len row_str + len col_str + 1)).
Proof.
  intros Hdims Hi Hj. unfold fill_cell.
  destruct (cell_is_Some R C t Hdims (i - 1) j) as [d Hd]; [lia..|].
  destruct (cell_is_Some R C t Hdims i (j - 1)) as [ins Hins]; [lia..|].
  destruct (cell_is_Some R C t Hdims (i - 1) (j - 1)) as [r Hr]; [lia..|].
  destruct (cell_is_Some R C t Hdims (i - 2) (j - 2)) as [x Hx]; [lia..|].
  destruct (str_getitem_is_Some row_str (i - 1)) as [a Ha];
    [unfold len; lia|].
  destruct (str_getitem_is_Some col_str (j - 1)) as [b Hb];
    [unfold len; lia|].
  destruct (str_getitem_is_Some row_str (i - 2)) as [a2 Ha2];
    [unfold len; lia|].
  destruct (str_getitem_is_Some col_str (j - 2)) as [b1 Hb1];
    [unfold len; lia|].
  exists d, ins, r, x, a, b, a2, b1. repeat (split; [done|]).
  rewrite Hd, Hins, Hr, Ha, Hb. simpl.
  destruct (decide (i + j > 2 ∧ a = b1 ∧ a2 = b)) as [(Hgt & Hab & Hab2)|Hno].
  - rewrite (decide_True (P := i + j > 2)) by done. simpl. rewrite Hb1. simpl.
    rewrite (decide_True (P := a = b1)) by done. simpl. rewrite Ha2. simpl.
    rewrite bool_decide_eq_true_2 by done. by rewrite Hx.
  - destruct (decide (i + j > 2)) as [Hgt|Hgt]; simpl; [|done].
    rewrite Hb1. simpl. destruct (decide (a = b1)) as [Hab|Hab]; simpl; [|done].
    rewrite Ha2. simpl. rewrite bool_decide_eq_false_2; [done|].
    intros Hab2. by apply Hno.
Qed.

Lemma fill_cell_step_exact (t : table) (i j : Z) :
  1 ≤ i ≤ Z.of_nat R → 1 ≤ j ≤ Z.of_nat C →
  exact_upto row_str col_str i j t →
  ∃ t', fill_cell row_str col_str (len row_str) (len col_str) i j t
          = Some t'
        ∧ exact_upto row_str col_str i (j + 1) t'.
Proof.
  intros Hi Hj (Hfilled & Hbound & Hzero & Hrec).
  destruct (fill_cell_step row_str col_str t i j Hi Hj Hfilled)
    as (t' & Hrun & Hfilled').
  exists t'. split; [done|]. split; [done|].
  destruct Hfilled as (Hdims & Hnn & [Hrow0 Hcol0] & _).
  destruct (fill_cell_exact t i j Hdims Hi Hj)
    as (d & ins & r & x & a & b & a2 & b1 & Hd & Hins & Hr & Hx
        & Ha & Hb & Ha2 & Hb1 & Hfill).
  rewrite Hfill in Hrun.
  set (tv := if decide (i + j > 2 ∧ a = b1 ∧ a2 = b) then x + 1
             else len row_str + len col_str + 1) in *.
  set (rv := if decide (a ≠ b) then r + 1 else r) in *.
  set (v := Z.min (Z.min (Z.min (d + 1) (ins + 1)) rv) tv) in *.
  destruct (set_cell_spec R C t Hdims i j v)
    as (t'' & Hrun' & _ & Hnew & Hother & _); [lia..|].
  assert (t'' = t') as -> by congruence. clear Hrun'.
  pose proof (cell_nonneg t _ _ _ Hnn Hd) as Hd0.
  pose proof (cell_nonneg t _ _ _ Hnn Hins) as Hins0.
  pose proof (cell_nonneg t _ _ _ Hnn Hr) as Hr0.
  pose proof (cell_nonneg t _ _ _ Hnn Hx) as Hx0.
  rewrite (cell_nonneg_index t) in Hd, Hins, Hr by lia.
  assert (1 ≤ tv) as Htv by (unfold tv, len; case_decide; lia).
  assert (r ≤ Z.max (i - 1) (j - 1)) as Hrmax.
  { apply Hbound in Hr. lia. }
  assert (d ≤ Z.max (i - 1) j) as Hdmax.
  { apply Hbound in Hd. lia. }
  assert (rv ≤ r + 1) as Hrv by (unfold rv; case_decide; lia).
  split; [|split].
  - (* the bound *)
    intros a' b' v' Hv'.
    destruct (decide ((a', b') = (Z.to_nat i, Z.to_nat j))) as [[= -> ->]|Hne].
    + rewrite Hnew in Hv'. simplify_eq. lia.
    + rewrite Hother in Hv' by done. by apply Hbound.
  - (* a zero marks equal prefixes *)
    intros a' b' Hvis Hv'.
    destruct (decide ((a', b') = (Z.to_nat i, Z.to_nat j))) as [[= -> ->]|Hne].
    + rewrite Hnew in Hv'. injection Hv' as Hv0.
      assert (rv = 0) as Hrv0 by lia.
      assert (a = b ∧ r = 0) as [-> ->].
      { unfold rv in Hrv0. case_decide as Hab; [lia|].
        split; [|done]. by destruct (decide (a = b)). }
      destruct (Hzero (Z.to_nat (i - 1)) (Z.to_nat (j - 1))) as [Hij Htake].
      { right. right. left. lia. }
      { done. }
      split; [lia|].
      rewrite str_getitem_symbol_at in Ha, Hb by lia. unfold symbol_at in *.
      replace (Z.to_nat i) with (S (Z.to_nat (i - 1))) by lia.
      replace (Z.to_nat j) with (S (Z.to_nat (j - 1))) by lia.
      rewrite (take_S_r _ _ _ Ha), (take_S_r _ _ _ Hb). by rewrite Htake.
    + rewrite Hother in Hv' by done. apply Hzero; [|done].
      destruct Hvis as [?|[?|Hvis]]; [by left|by right; left|].
      right. right. destruct Hvis as [?|[? ?]]; [by left|].
      right. split; [done|].
      assert (Z.of_nat b' ≠ j) by (intros ?; apply Hne; f_equal; lia). lia.
  - (* the recurrence *)
    intros a' b' Ha' Hb' Hvis Haway.
    assert (∀ a'' b'', (a'' < a' ∨ (a'' = a' ∧ b'' < b'))%nat →
              entry t' a'' b'' = entry t a'' b'') as Hsame.
    { intros a'' b'' Hlt. apply Hother. intros [= -> ->].
      destruct Hvis as [?|[? ?]]; lia. }
    rewrite (claimed_cell_ext t t') by (done || lia).
    destruct (decide ((a', b') = (Z.to_nat i, Z.to_nat j))) as [[= -> ->]|Hne].
    + rewrite Hnew. unfold claimed_cell.
      replace (Z.to_nat i - 1)%nat with (Z.to_nat (i - 1)) by lia.
      replace (Z.to_nat j - 1)%nat with (Z.to_nat (j - 1)) by lia.
      rewrite Hd, Hins, Hr. simpl.
      rewrite str_getitem_symbol_at in Ha, Hb by lia.
      rewrite Ha, Hb. simpl.
      assert (Z.min (Z.min (d + 1) (ins + 1))
                (r + (if decide (a = b) then 0 else 1))
              = Z.min (Z.min (d + 1) (ins + 1)) rv) as ->.
      { unfold rv. f_equal. destruct (decide (a = b)) as [->|Hab].
        - rewrite decide_False; [lia|]. intros Hne'. by apply Hne'.
        - rewrite decide_True by done. lia. }
      destruct Haway as [[Hi2 Hj2]|[Hi1 Hj1]].
      * rewrite decide_True by done.
        rewrite (cell_nonneg_index t) in Hx by lia.
        rewrite str_getitem_symbol_at in Ha2, Hb1 by lia.
        replace (Z.to_nat i - 2)%nat with (Z.to_nat (i - 2)) by lia.
        replace (Z.to_nat j - 2)%nat with (Z.to_nat (j - 2)) by lia.
        rewrite Ha2, Hb1, Hx. simpl. f_equal. unfold v, tv.
        destruct (decide (a = b1 ∧ a2 = b)) as [[? ?]|Hcross].
        -- rewrite decide_True; [done|]. split; [lia|done].
        -- rewrite decide_False by (intros (_ & ? & ?); by apply Hcross).
           unfold len. lia.
      * rewrite decide_False by lia. f_equal. unfold v, tv.
        rewrite decide_False by lia. unfold len. lia.
    + rewrite Hother by done. apply Hrec; [done..| |done].
      destruct Hvis as [?|[? ?]]; [by left|]. right. split; [done|].
      assert (Z.of_nat b' ≠ j) by (intros ?; apply Hne; f_equal; lia). lia.
Qed.
End exact.

Lemma exact_upto_next_row (row_str col_str : string) (i : Z) (t : table) :
  1 ≤ i →
  exact_upto row_str col_str i (len col_str + 1) t →
  exact_upto row_str col_str (i + 1) 1 t.
Proof.
  intros Hi ((Hdims & Hnn & Hborders & Hdiag) & Hbound & Hzero & Hrec).
  assert (∀ a b v, entry t a b = Some v → visited (i + 1) 1 a b →
            b = 0%nat ∨ visited i (len col_str + 1) a b) as Hvis.
  { intros a b v Hv [?|[? ?]]; [|left; lia].
    apply (entry_Some_range _ _ _ _ _ _ Hdims) in Hv as [_ ?].
    right. unfold visited, len. lia. }
  split; [|split; [done|split]].
  - split; [done|]. split; [done|]. split; [done|].
    intros Heq k Hk HkR. apply Hdiag; [done| |done].
    destruct (decide (Z.of_nat k < i)); [by left|right].
    split; [lia|]. rewrite <- Heq. unfold len. lia.
  - intros a b Hab Hv. apply Hzero; [|done].
    destruct Hab as [?|[?|Hab]]; [by left|by right; left|].
    destruct (Hvis _ _ _ Hv Hab); [by right; left|by right; right].
  - intros a b Ha Hb Hab Haway. apply Hrec; [done..| |done].
    destruct Hab as [?|[? ?]]; [|lia]. unfold visited, len. lia.
Qed.

(** After the first two loops the borders are in place and the third loop
    can start. *)
Lemma borders_filled (row_str col_str : string) :
  ∃ t1 t2,
    for_each (range 1 (len col_str + 1))
      (λ col_index t, set_cell t 0 col_index col_index)
      (replicate (Z.to_nat (len row_str + 1))
         (replicate (Z.to_nat (len col_str + 1)) 0)) = Some t1
    ∧ for_each (range 1 (len row_str + 1))
        (λ row_index t, set_cell t row_index 0 row_index) t1 = Some t2
    ∧ exact_upto row_str col_str 1 1 t2.
Proof.
  set (R := String.length row_str). set (C := String.length col_str).
  replace (Z.to_nat (len row_str + 1)) with (S R) by (unfold len, R; lia).
  replace (Z.to_nat (len col_str + 1)) with (S C) by (unfold len, C; lia).
  destruct (initial_table row_str col_str) as (Hdims0 & Hnn0 & Hzero0).
  fold R C in Hdims0, Hnn0, Hzero0.
  assert (table_bounded (replicate (S R) (replicate (S C) 0))) as Hbound0.
  { intros a b v Hv.
    destruct (entry_Some_range _ _ _ _ _ _ Hdims0 Hv) as [? ?].
    rewrite Hzero0 in Hv by done. simplify_eq. lia. }
  (* first loop: row 0 *)
  destruct (for_each_range_inv
    (λ k t, table_dims R C t ∧ table_nonneg t ∧ table_bounded t
            ∧ ∀ b, (b ≤ C)%nat → Z.of_nat b < k →
                   entry t 0 b = Some (Z.of_nat b))
    (λ col_index t, set_cell t 0 col_index col_index)
    1 (len col_str + 1) (replicate (S R) (replicate (S C) 0)))
    as (t1 & Ht1 & Hdims1 & Hnn1 & Hbound1 & Hrow0).
  { unfold len. lia. }
  { split; [done|]. split; [done|]. split; [done|]. intros b ? ?.
    replace b with 0%nat by lia. apply Hzero0; lia. }
  { intros k t Hk (Hdims & Hnn & Hbound & Hrow).
    destruct (set_cell_spec R C t Hdims 0 k k)
      as (t' & -> & Hdims' & Hnew & Hother & Hnn');
      [lia|unfold len in Hk; fold C in Hk; lia|].
    exists t'. split; [done|]. split; [done|].
    split; [apply Hnn'; [done|lia]|]. split.
    - intros a b v Hv.
      destruct (decide ((a, b) = (Z.to_nat 0, Z.to_nat k))) as [[= -> ->]|].
      + rewrite Hnew in Hv. simplify_eq. lia.
      + rewrite Hother in Hv by done. by apply Hbound.
    - intros b Hb Hbk. destruct (decide (Z.of_nat b = k)) as [<-|].
      + change 0%nat with (Z.to_nat 0). rewrite <- (Nat2Z.id b) at 1. done.
      + rewrite Hother; [apply Hrow; [done|lia]|]. intros [=]. lia. }
  (* second loop: column 0 *)
  destruct (for_each_range_inv
    (λ k t, table_dims R C t ∧ table_nonneg t ∧ table_bounded t
            ∧ (∀ b, (b ≤ C)%nat → entry t 0 b = Some (Z.of_nat b))
            ∧ ∀ a, (a ≤ R)%nat → Z.of_nat a < k →
                   entry t a 0 = Some (Z.of_nat a))
    (λ row_index t, set_cell t row_index 0 row_index)
    1 (len row_str + 1) t1)
    as (t2 & Ht2 & Hdims2 & Hnn2 & Hbound2 & Hrow0' & Hcol0).
  { unfold len. lia. }
  { split; [done|]. split; [done|]. split; [done|]. split.
    - intros b Hb. apply Hrow0; [done|]. unfold len. fold C. lia.
    - intros a ? ?. replace a with 0%nat by lia.
      apply Hrow0; [lia|]. unfold len. lia. }
  { intros k t Hk (Hdims & Hnn & Hbound & Hrow & Hcol).
    destruct (set_cell_spec R C t Hdims k 0 k)
      as (t' & -> & Hdims' & Hnew & Hother & Hnn');
      [unfold len in Hk; fold R in Hk; lia|lia|].
    exists t'. split; [done|]. split; [done|].
    split; [apply Hnn'; [done|lia]|]. split; [|split].
    - intros a b v Hv.
      destruct (decide ((a, b) = (Z.to_nat k, Z.to_nat 0))) as [[= -> ->]|].
      + rewrite Hnew in Hv. simplify_eq. lia.
      + rewrite Hother in Hv by done. by apply Hbound.
    - intros b Hb. rewrite Hother; [by apply Hrow|]. intros [=]. lia.
    - intros a Ha Hak. destruct (decide (Z.of_nat a = k)) as [<-|].
      + change 0%nat with (Z.to_nat 0). rewrite <- (Nat2Z.id a) at 1. done.
      + rewrite Hother; [apply Hcol; [done|lia]|]. intros [=]. lia. }
  assert (∀ a, (a ≤ R)%nat → entry t2 a 0 = Some (Z.of_nat a)) as Hcol0'.
  { intros a Ha. apply Hcol0; [done|]. unfold len. fold R. lia. }
  exists t1, t2. split; [done|]. split; [done|].
  split; [|split; [done|split]].
  - split; [done|]. split; [done|]. split; [done|].
    intros _ k Hk _. replace k with 0%nat by lia. apply Hrow0'. lia.
  - intros a b Hab Hv.
    destruct (entry_Some_range _ _ _ _ _ _ Hdims2 Hv) as [? ?].
    assert (a = 0%nat ∨ b = 0%nat) as [->| ->].
    { destruct Hab as [?|[?|[?|[? ?]]]]; lia. }
    + rewrite Hrow0' in Hv by done. simplify_eq.
      by replace b with 0%nat by lia.
    + rewrite Hcol0' in Hv by done. simplify_eq.
      by replace a with 0%nat by lia.
  - intros a b Ha Hb [?|[? ?]]; lia.
Qed.

Lemma get_edit_dist_table_exact (row_str col_str : string) :
  ∃ t, get_edit_dist_table row_str col_str = Some t
       ∧ exact_upto row_str col_str (len row_str + 1) 1 t.
Proof.
  unfold get_edit_dist_table.
  destruct (borders_filled row_str col_str) as (t1 & t2 & -> & Ht2 & Hstart).
  simpl. rewrite Ht2. simpl.
  apply (for_each_range_inv
    (λ i t, exact_upto row_str col_str i 1 t)
    (λ row_index t,
       for_each (range 1 (len col_str + 1))
         (λ col_index t', fill_cell row_str col_str (len row_str)
                            (len col_str) row_index col_index t') t)
    1 (len row_str + 1) t2).
  { unfold len. lia. }
  { done. }
  intros i t Hi Hexact.
  destruct (for_each_range_inv
    (λ j t', exact_upto row_str col_str i j t')
    (λ col_index t', fill_cell row_str col_str (len row_str)
                       (len col_str) i col_index t')
    1 (len col_str + 1) t) as (t' & -> & Hexact').
  { unfold len. lia. }
  { done. }
  { intros j t' Hj.
    apply fill_cell_step_exact; unfold len in Hi, Hj; lia. }
  exists t'. split; [done|]. apply exact_upto_next_row; [lia|done].
Qed.

(** * Further properties of the backtrace *)

(** Whatever the table, a trace that returns has only appended operation
    symbols to the shared list, and at most [i + j] of them. *)
Lemma get_transformation_appends (s0 s1 : string) (t : table) (fuel : nat) :
  ∀ (i j : Z) (l ret final : list string),
    0 ≤ i → 0 ≤ j →
    get_transformation fuel s0 s1 i j l t = Some (ret, final) →
    ∃ suffix, final = l ++ suffix
              ∧ Forall (λ x, x ∈ ["R"; "T"; "I"; "D"]) suffix
              ∧ Z.of_nat (length suffix) ≤ i + j.
Proof.
  assert (∀ (l final : list string) (x : string) (n : Z) (m : Z),
    x ∈ ["R"; "T"; "I"; "D"] → n + 1 ≤ m →
    (∃ suffix, final = (l ++ [x]) ++ suffix
               ∧ Forall (λ x, x ∈ ["R"; "T"; "I"; "D"]) suffix
               ∧ Z.of_nat (length suffix) ≤ n) →
    ∃ suffix, final = l ++ suffix
              ∧ Forall (λ x, x ∈ ["R"; "T"; "I"; "D"]) suffix
              ∧ Z.of_nat (length suffix) ≤ m) as Hcons.
  { intros l final x n m Hx Hnm (suffix & -> & Hall & Hlen).
    exists (x :: suffix). split; [by rewrite <- app_assoc|].
    split; [by constructor|]. simpl. lia. }
  induction fuel as [|fuel IH]; intros i j l ret final Hi Hj Hrun; [done|].
  cbn [get_transformation] in Hrun.
  destruct (decide (i = 0 ∧ j = 0)) as [|Hnz].
  { simplify_eq. exists []. rewrite app_nil_r. split; [done|].
    split; [constructor|]. simpl. lia. }
  destruct (cell t i j) as [cur|]; simpl in Hrun; [|done].
  destruct (cell t (i - 1) j) as [del|]; simpl in Hrun; [|done].
  destruct (cell t i (j - 1)) as [ins|]; simpl in Hrun; [|done].
  destruct (cell t (i - 1) (j - 1)) as [r|]; simpl in Hrun; [|done].
  destruct (str_getitem s0 (i - 1)) as [a|]; simpl in Hrun; [|done].
  destruct (str_getitem s1 (j - 1)) as [b|]; simpl in Hrun; [|done].
  destruct (cell t (i - 2) (j - 2)) as [tr|]; simpl in Hrun; [|done].
  destruct (decide (_ ∧ (i > 0 ∧ j > 0))) as [(_ & ? & ?)|_].
  { destruct (decide (a ≠ b)).
    - apply (Hcons _ _ "R" (i - 1 + (j - 1))); [set_solver|lia|].
      by apply (IH (i - 1) (j - 1) _ ret); [lia..|].
    - destruct (IH (i - 1) (j - 1) l ret final) as (suffix & ? & ? & ?);
        [lia..|done|].
      exists suffix. split; [done|]. split; [done|]. lia. }
  assert (∀ l' : list string,
    (if decide (ins ≤ cur ∧ j > 0)
     then get_transformation fuel s0 s1 i (j - 1) (l' ++ ["I"]) t
     else if decide (del ≤ cur ∧ i > 0)
     then get_transformation fuel s0 s1 (i - 1) j (l' ++ ["D"]) t
     else Some ([], l')) = Some (ret, final) →
    ∃ suffix, final = l' ++ suffix
              ∧ Forall (λ x, x ∈ ["R"; "T"; "I"; "D"]) suffix
              ∧ Z.of_nat (length suffix) ≤ i + j) as Hrest.
  { intros l' Hrun'.
    destruct (decide (ins ≤ cur ∧ j > 0)) as [[_ ?]|_].
    { apply (Hcons _ _ "I" (i + (j - 1))); [set_solver|lia|].
      by apply (IH i (j - 1) _ ret); [lia..|]. }
    destruct (decide (del ≤ cur ∧ i > 0)) as [[_ ?]|_].
    { apply (Hcons _ _ "D" (i - 1 + j)); [set_solver|lia|].
      by apply (IH (i - 1) j _ ret); [lia..|]. }
    simplify_eq. exists []. rewrite app_nil_r. split; [done|].
    split; [constructor|]. simpl. lia. }
  destruct (decide (tr ≤ cur)); simpl in Hrun; [|by apply Hrest].
  destruct (decide (i > 1)); simpl in Hrun; [|by apply Hrest].
  destruct (decide (j > 1)); simpl in Hrun; [|by apply Hrest].
  destruct (str_getitem s1 (j - 2)) as [b1|]; simpl in Hrun; [|done].
  destruct (decide (a = b1)); simpl in Hrun; [|by apply Hrest].
  destruct (str_getitem s0 (i - 2)) as [a2|]; simpl in Hrun; [|done].
  destruct (bool_decide (a2 = b)); simpl in Hrun; [|by apply Hrest].
  apply (Hcons _ _ "T" (i - 2 + (j - 2))); [set_solver|lia|].
  by apply (IH (i - 2) (j - 2) _ ret); [lia..|].
Qed.

Lemma get_transformation_list_symbols (s0 s1 : string) (l : list string) :
  get_transformation_list s0 s1 = Some l →
  Forall (λ x, x ∈ ["R"; "T"; "I"; "D"]) l
  ∧ Z.of_nat (length l) ≤ len s0 + len s1.
Proof.
  destruct (get_transformation_list_unfold s0 s1) as (t & _ & _ & _ & _ & ->).
  destruct (decide (len s1 ≤ 0)) as [Hs1|Hs1].
  { assert (s1 = "") as ->.
    { destruct s1; [done|]. unfold len in Hs1. simpl in Hs1. lia. }
    rewrite transformation_list_empty_target. intros [= <-]. split.
    - apply Forall_replicate. set_solver.
    - rewrite length_replicate. unfold len. simpl. lia. }
  destruct (decide (len s0 ≤ 0)) as [Hs0|Hs0].
  { assert (s0 = "") as ->.
    { destruct s0; [done|]. unfold len in Hs0. simpl in Hs0. lia. }
    rewrite transformation_list_empty_source. intros [= <-]. split.
    - apply Forall_replicate. set_solver.
    - rewrite length_replicate. unfold len. simpl. lia. }
  unfold transformation_list_with_table.
  rewrite !decide_False by done.
  destruct (get_transformation _ _ _ _ _ _ _) as [[ret final]|] eqn:Hrun;
    simpl; [|done].
  intros [= <-].
  apply get_transformation_appends in Hrun as (suffix & -> & ? & ?);
    unfold len in *; [|lia..].
  done.
Qed.

(** * The player *)

(** ** Dictionaries of counts *)

Section dict_lemmas.
Context {K : Type} `{EqDecision K}.
Implicit Types (d : list (K * Z)) (k : K) (v : Z).

Lemma dict_getitem_is_Some d k : k ∈ d.*1 → is_Some (dict_getitem d k).
Proof.
  induction d as [|[k' v'] d IH]; simpl; [by rewrite elem_of_nil|].
  rewrite elem_of_cons. intros [->|Hk].
  - rewrite decide_True by done. eauto.
  - case_decide; eauto.
Qed.

Lemma dict_getitem_None d k : k ∉ d.*1 → dict_getitem d k = None.
Proof.
  induction d as [|[k' v'] d IH]; simpl; [done|].
  rewrite not_elem_of_cons. intros [? ?]. rewrite decide_False by done. auto.
Qed.

Lemma dict_getitem_elem_of d k v : dict_getitem d k = Some v → (k, v) ∈ d.
Proof.
  induction d as [|[k' v'] d IH]; simpl; [done|].
  case_decide; intros; simplify_eq; [left|right; auto].
Qed.

Lemma elem_of_dict_getitem d k v :
  NoDup d.*1 → (k, v) ∈ d → dict_getitem d k = Some v.
Proof.
  induction d as [|[k' v'] d IH]; simpl; [by rewrite elem_of_nil|].
  rewrite NoDup_cons, elem_of_cons. intros [Hk' Hnd] [[= -> ->]|Hin].
  - by rewrite decide_True.
  - rewrite decide_False; [auto|]. intros ->. apply Hk'.
    apply list_elem_of_fmap. by exists (k, v).
Qed.

Lemma dict_getitem_setitem d k v k' :
  dict_getitem (dict_setitem d k v) k'
  = if decide (k = k') then Some v else dict_getitem d k'.
Proof.
  induction d as [|[k0 v0] d IH]; simpl.
  - by destruct (decide (k = k')).
  - destruct (decide (k0 = k)) as [->|Hne]; simpl.
    + by destruct (decide (k = k')).
    + rewrite IH. destruct (decide (k0 = k')) as [->|]; [|done].
      by rewrite decide_False.
Qed.

Lemma dict_setitem_keys d k v :
  (dict_setitem d k v).*1 = if decide (k ∈ d.*1) then d.*1 else d.*1 ++ [k].
Proof.
  induction d as [|[k0 v0] d IH].
  - done.
  - cbn [dict_setitem]. rewrite fmap_cons. cbn [fst].
    destruct (decide (k0 = k)) as [->|Hne].
    + rewrite fmap_cons. cbn [fst]. clear IH.
      destruct (decide (k ∈ k :: d.*1)) as [|Hk]; [done|].
      exfalso. apply Hk. left.
    + rewrite fmap_cons, IH. cbn [fst]. clear IH.
      destruct (decide (k ∈ d.*1)) as [Hin|Hin].
      * destruct (decide (k ∈ k0 :: d.*1)) as [|Hk]; [done|].
        exfalso. apply Hk. by right.
      * destruct (decide (k ∈ k0 :: d.*1)) as [Hk|]; [|done].
        apply elem_of_cons in Hk as [?|?]; congruence.
Qed.

Lemma dict_setitem_NoDup d k v : NoDup d.*1 → NoDup (dict_setitem d k v).*1.
Proof.
  intros Hnd. rewrite dict_setitem_keys. case_decide; [done|].
  apply NoDup_app. split; [done|]. split; [|apply NoDup_singleton].
  intros x Hx. rewrite list_elem_of_singleton. by intros ->.
Qed.

(** Counting one more occurrence never raises; the count of the key goes
    up by one from its previous value, or from 0. *)
Lemma count_up_spec k d :
  ∃ d', count_up k d = Some d'
        ∧ (NoDup d.*1 → NoDup d'.*1)
        ∧ ∀ k', dict_getitem d' k'
                = if decide (k = k')
                  then Some (default 0 (dict_getitem d k) + 1)
                  else dict_getitem d k'.
Proof.
  unfold count_up, dict_contains. case_bool_decide as Hk.
  - destruct (dict_getitem_is_Some d k Hk) as [v Hv]. rewrite Hv. simpl.
    eexists. split; [done|]. split; [apply dict_setitem_NoDup|].
    intros k'. apply dict_getitem_setitem.
  - rewrite (dict_getitem_None d k Hk). simpl.
    eexists. split; [done|]. split; [apply dict_setitem_NoDup|].
    intros k'. apply dict_getitem_setitem.
Qed.
End dict_lemmas.

Lemma for_each_total {A S} (body : A → S → option S) (xs : list A) (s : S) :
  (∀ x s, is_Some (body x s)) → is_Some (for_each xs body s).
Proof.
  intros Hbody. revert s. induction xs as [|x xs IH]; intros s; simpl.
  - eauto.
  - destruct (Hbody x s) as [s' ->]. simpl. apply IH.
Qed.

Lemma random_choice_elem_of {A} (draw : nat) (seq : list A) :
  seq ≠ [] → ∃ x, random_choice draw seq = Some x ∧ x ∈ seq.
Proof.
  intros Hne. unfold random_choice. destruct seq as [|y seq]; [done|].
  destruct (lookup_lt_is_Some_2 (y :: seq) (draw mod length (y :: seq))%nat)
    as [x Hx].
  { apply Nat.mod_upper_bound. simpl. lia. }
  exists x. split; [done|]. by eapply list_elem_of_lookup_2.
Qed.

(** ** Starting a game *)

Section start.
Context (order : list string).

Let count (k : Z) (words : list string) : Z :=
  Z.of_nat (length (filter (λ word, len word = k) words)).

(** After the first loop, [length_counts] maps each length that occurs to
    the number of words of that length, and holds no other key. *)
Lemma length_counts_spec :
  ∃ d, for_each order (λ word d, count_up (len word) d) [] = Some d
       ∧ NoDup d.*1
       ∧ ∀ k, dict_getitem d k
              = if decide (count k order = 0) then None
                else Some (count k order).
Proof.
  destruct (for_each_inv
    (λ done (d : list (Z * Z)),
       NoDup d.*1
       ∧ ∀ k, dict_getitem d k
              = if decide (count k done = 0) then None
                else Some (count k done))
    (λ word d, count_up (len word) d) order []) as (d & Hrun & HP).
  { split; [constructor|]. intros k. done. }
  { intros done x rest d _ [Hnd Hget].
    destruct (count_up_spec (len x) d) as (d' & -> & Hnd' & Hget').
    exists d'. split; [done|]. split; [auto|].
    intros k. rewrite Hget', (Hget (len x)), (Hget k).
    assert (count k (done ++ [x])
            = count k done + (if decide (len x = k) then 1 else 0)) as ->.
    { unfold count. rewrite filter_app, length_app, filter_cons, filter_nil.
      destruct (decide (len x = k)); simpl; lia. }
    assert (0 ≤ count k done) by (unfold count; lia).
    destruct (decide (len x = k)) as [->|Hne].
    - rewrite (decide_False (P := count k done + 1 = 0)) by lia.
      destruct (decide (count k done = 0)) as [->|]; simpl; f_equal; lia.
    - by rewrite Z.add_0_r. }
  by exists d.
Qed.

(** The second loop keeps the first item whose count exceeds every count
    before it. *)
Lemma most_common_spec (d : list (Z * Z)) (most0 highest0 : Z) :
  ∀ most highest,
    foldl (λ '(most, highest) '(length_, count),
             if decide (count > highest) then (length_, count)
             else (most, highest))
      (most0, highest0) d = (most, highest) →
    highest0 ≤ highest
    ∧ (∀ k c, (k, c) ∈ d → c ≤ highest)
    ∧ ((most, highest) = (most0, highest0) ∨ (most, highest) ∈ d).
Proof.
  revert most0 highest0.
  induction d as [|[k0 c0] d IH]; intros most0 highest0 most highest Hfold.
  - simpl in Hfold. simplify_eq. split; [lia|]. split; [|by left].
    intros k c Hin. by apply elem_of_nil in Hin.
  - simpl in Hfold. destruct (decide (c0 > highest0)) as [Hgt|Hle].
    + apply IH in Hfold as (Hh & Hall & Hin).
      split; [lia|]. split.
      * intros k c [[= -> ->]|?]%elem_of_cons; [lia|by eapply Hall].
      * right. rewrite elem_of_cons. destruct Hin as [?|?]; [by left|by right].
    + apply IH in Hfold as (Hh & Hall & Hin).
      split; [lia|]. split.
      * intros k c [[= -> ->]|?]%elem_of_cons; [lia|by eapply Hall].
      * destruct Hin as [?|?]; [by left|right].
        rewrite elem_of_cons. by right.
Qed.

(** On a dictionary that is not empty the method returns: the opening word
    is a word of the dictionary, and no length is more frequent than
    its own. *)
Lemma start_new_game_spec (draw : nat) (dictionary : gset string)
    (max_guesses : Z) :
  order ≠ [] →
  ∃ w, start_new_game order draw dictionary max_guesses
         = Some (Build_DistlePlayer dictionary dictionary 0 w)
       ∧ w ∈ order
       ∧ ∀ k, count k order ≤ count (len w) order.
Proof.
  intros Hne. unfold start_new_game.
  destruct length_counts_spec as (d & -> & Hnd & Hget). simpl.
  destruct (foldl _ (0, 0) d) as [most highest] eqn:Hfold.
  apply most_common_spec in Hfold as (Hh & Hall & Hin).
  assert (∀ k, count k order ≤ highest) as Hmax.
  { intros k. specialize (Hget k). case_decide as Hk; [lia|].
    apply (Hall k). by apply dict_getitem_elem_of. }
  assert (0 < highest) as Hpos.
  { destruct order as [|x rest] eqn:Horder; [done|].
    specialize (Hmax (len x)). unfold count in Hmax.
    rewrite filter_cons, decide_True in Hmax by done. simpl in Hmax. lia. }
  assert (count most order = highest) as Hmost.
  { destruct Hin as [[= -> ->]|Hin]; [lia|].
    apply (elem_of_dict_getitem _ _ _ Hnd) in Hin.
    rewrite Hget in Hin. case_decide; by simplify_eq. }
  set (matching_words := filter (λ word, len word = most) order).
  assert (matching_words ≠ []) as Hmatching.
  { intros Hnil. unfold count in Hmost. fold matching_words in Hmost.
    rewrite Hnil in Hmost. simpl in Hmost. lia. }
  destruct (for_each_total
    (λ (word : string) (d : list (ascii * Z)),
       for_each (list_ascii_of_string word)
         (λ letter d', count_up letter d') d) matching_words [])
    as [letter_counts ->].
  { intros word d0. apply for_each_total. intros letter d'.
    destruct (count_up_spec letter d') as (? & -> & _). eauto. }
  simpl.
  set (best_words := filter _ matching_words).
  assert (∃ w, match best_words with
               | [] => random_choice draw matching_words
               | _ :: _ => random_choice draw best_words
               end = Some w ∧ w ∈ matching_words) as (w & -> & Hw).
  { destruct best_words as [|b best] eqn:Hbest.
    - by apply random_choice_elem_of.
    - destruct (random_choice_elem_of draw (b :: best)) as (w & ? & Hw);
        [done|].
      exists w. split; [done|]. rewrite <- Hbest in Hw.
      by apply list_elem_of_filter in Hw as [_ ?]. }
  simpl. exists w. split; [done|].
  apply list_elem_of_filter in Hw as [Hlen Hw]. split; [done|].
  intros k. rewrite Hlen, Hmost. apply Hmax.
Qed.
End start.

Lemma size_filter_order (P : string → Prop) `{∀ x, Decision (P x)}
    (order : list string) (dictionary : gset string) :
  order ≡ₚ elements dictionary →
  size (filter P dictionary) = length (filter P order).
Proof.
  intros Hperm. unfold size, set_size. simpl. apply Permutation_length.
  rewrite Hperm. apply NoDup_Permutation.
  - apply NoDup_elements.
  - apply NoDup_filter, NoDup_elements.
  - intros x. rewrite list_elem_of_filter, !elem_of_elements, elem_of_filter.
    done.
Qed.

(** ** Feedback and guesses *)

Lemma get_transformation_list_refl (s : string) :
  get_transformation_list s s = Some [].
Proof.
  destruct (get_transformation_list_unfold s s)
    as (t & _ & Hdims & _ & Hdiag & ->).
  unfold transformation_list_with_table.
  destruct (decide (len s ≤ 0)) as [Hs|Hs].
  { assert (String.length s = 0%nat) as Hlen by (unfold len in Hs; lia).
    unfold len. by rewrite Hlen. }
  assert (1 ≤ String.length s)%nat as Hlen by (unfold len in *; lia).
  rewrite (get_transformation_diagonal s s t Hdims Hlen Hlen);
    unfold len in *; auto with lia.
Qed.

(** [get_feedback] always returns; it rebinds the dictionary to the words
    whose list from [guess] is [transforms] and touches nothing else. *)
Lemma get_feedback_spec (self : DistlePlayer) (guess : string)
    (edit_dist : Z) (transforms : list string) :
  get_feedback self guess edit_dist transforms
  = Some (Build_DistlePlayer
            (filter (λ w, get_transformation_list guess w = Some transforms)
               (dictionary self))
            (new_dict self) (total_guesses self) (first_match self)).
Proof.
  unfold get_feedback.
  destruct (for_each_inv
    (λ done (acc : gset string),
       ∀ w, w ∈ acc ↔
            w ∈ done ∧ get_transformation_list guess w = Some transforms)
    (λ word (acc : gset string),
       l ← get_transformation_list guess word;
       Some (if decide (transforms = l) then {[word]} ∪ acc else acc))
    (elements (dictionary self)) ∅) as (kept & -> & Hkept).
  { intros w. rewrite elem_of_nil, elem_of_empty. tauto. }
  { intros done x rest acc _ Hacc.
    destruct (get_transformation_list_total guess x) as [l Hl].
    rewrite Hl. simpl. eexists. split; [done|].
    intros w. rewrite elem_of_app, list_elem_of_singleton.
    case_decide as Heq.
    - rewrite elem_of_union, elem_of_singleton, Hacc. subst l.
      split; [intros [->|[? ?]]; auto|intros [[?| ->] ?]; auto].
    - rewrite Hacc. split; [intros [? ?]; auto|].
      intros [[?| ->] Hw]; [done|]. congruence. }
  simpl. do 2 f_equal. apply set_eq. intros w.
  rewrite Hkept, elem_of_filter, elem_of_elements. tauto.
Qed.

Lemma feedback_rounds_spec (secret : string)
    (rounds : list (string * Z * list string)) :
  ∀ self : DistlePlayer,
    secret ∈ dictionary self →
    Forall (λ '(guess, _, transforms),
              get_transformation_list guess secret = Some transforms)
      rounds →
    ∃ self', feedback_rounds rounds self = Some self'
             ∧ secret ∈ dictionary self'
             ∧ dictionary self' ⊆ dictionary self.
Proof.
  unfold feedback_rounds.
  induction rounds as [|[[guess edit_dist] transforms] rounds IH];
    intros self Hsecret Hall.
  - exists self. done.
  - apply Forall_cons in Hall as [Hfirst Hall].
    cbn [for_each]. rewrite get_feedback_spec. simpl.
    destruct (IH (Build_DistlePlayer
        (filter (λ w, get_transformation_list guess w = Some transforms)
           (dictionary self))
        (new_dict self) (total_guesses self) (first_match self)))
      as (self' & -> & Hin & Hsub); [|done|].
    { simpl. by apply elem_of_filter. }
    exists self'. split; [done|]. split; [done|].
    intros w Hw. apply Hsub in Hw. simpl in Hw.
    by apply elem_of_filter in Hw as [_ ?].
Qed.

(** * Further results *)

(** ** The table and the distance *)

(** X1: [get_edit_dist_table] never raises, although it reads at indices
    -1; the table has [len(row_str) + 1] rows of [len(col_str) + 1] cells,
    row 0 and column 0 hold the index itself, and no cell is negative. *)
Theorem table_shape_and_borders (row_str col_str : string) :
  ∃ t, get_edit_dist_table row_str col_str = Some t
       ∧ Z.of_nat (length t) = len row_str + 1
       ∧ Forall (λ row, Z.of_nat (length row) = len col_str + 1) t
       ∧ (∀ j, 0 ≤ j ≤ len col_str → cell t 0 j = Some j)
       ∧ (∀ i, 0 ≤ i ≤ len row_str → cell t i 0 = Some i)
       ∧ (∀ i j v, cell t i j = Some v → 0 ≤ v).
Proof.
  destruct (get_edit_dist_table_spec row_str col_str)
    as (t & Ht & [Hlen Hrows] & Hnn & [Hrow0 Hcol0] & _).
  exists t. split; [done|]. split; [unfold len; lia|].
  split; [|split; [|split]].
  - apply (Forall_impl _ _ _ Hrows). intros row Hrow. simpl in Hrow.
    unfold len. lia.
  - intros j Hj. rewrite (cell_nonneg_index t) by lia.
    rewrite Hrow0 by (unfold len in Hj; lia). f_equal. lia.
  - intros i Hi. rewrite (cell_nonneg_index t) by lia.
    rewrite Hcol0 by (unfold len in Hi; lia). f_equal. lia.
  - intros i j v. by apply cell_nonneg.
Qed.

(** X2: in every cell with both coordinates above 1, and in cell (1, 1),
    the table satisfies the recurrence: the minimum of the cell above
    plus 1, the cell to the left plus 1, the diagonal cell plus 0 or 1,
    and, when the last two symbols cross, the cell two steps up the
    diagonal plus 1. *)
Theorem table_recurrence_away_from_wrap (row_str col_str : string)
    (t : table) (i j : nat) :
  get_edit_dist_table row_str col_str = Some t →
  (1 ≤ i ≤ String.length row_str)%nat →
  (1 ≤ j ≤ String.length col_str)%nat →
  away_from_wrap i j →
  ∃ v, entry t i j = Some v ∧ claimed_cell t row_str col_str i j = Some v.
Proof.
  intros Ht Hi Hj Haway.
  destruct (get_edit_dist_table_exact row_str col_str)
    as (t' & Ht' & (Hdims & _) & _ & _ & Hrec).
  assert (t' = t) as -> by congruence.
  destruct (entry_is_Some (String.length row_str) (String.length col_str)
              t Hdims i j) as [v Hv]; [lia..|].
  exists v. split; [done|]. rewrite <- Hv. symmetry.
  apply Hrec; [done..| |done]. left. unfold len. lia.
Qed.

Lemma table_recurrence_away_from_wrap_witness :
  get_edit_dist_table "ab" "ba" = Some [[0; 1; 2]; [1; 1; 1]; [2; 1; 1]]
  ∧ ∃ v, entry [[0; 1; 2]; [1; 1; 1]; [2; 1; 1]] 2 2 = Some v
         ∧ claimed_cell [[0; 1; 2]; [1; 1; 1]; [2; 1; 1]] "ab" "ba" 2 2
           = Some v.
Proof.
  split; [by vm_compute|].
  apply (table_recurrence_away_from_wrap "ab" "ba" _ 2 2).
  - by vm_compute.
  - simpl. lia.
  - simpl. lia.
  - left. lia.
Defined.

(** X3: [edit_distance] never raises and its result lies between 0 and the
    length of the longer string. *)
Theorem edit_distance_bounds (s0 s1 : string) :
  ∃ d, edit_distance s0 s1 = Some d ∧ 0 ≤ d ≤ Z.max (len s0) (len s1).
Proof.
  unfold edit_distance. case_decide.
  { exists 0. split; [done|]. unfold len. lia. }
  destruct (get_edit_dist_table_exact s0 s1)
    as (t & -> & (Hdims & Hnn & _) & Hbound & _).
  simpl.
  destruct (cell_is_Some (String.length s0) (String.length s1) t Hdims
              (len s0) (len s1)) as [d Hd]; [unfold len; lia..|].
  exists d. split; [done|]. split; [by eapply cell_nonneg|].
  rewrite (cell_nonneg_index t) in Hd by (unfold len; lia).
  apply Hbound in Hd. unfold len in *. lia.
Qed.

(** X4: the distance is 0 exactly when the two strings are equal. *)
Theorem edit_distance_zero_iff_equal (s0 s1 : string) :
  edit_distance s0 s1 = Some 0 ↔ s0 = s1.
Proof.
  unfold edit_distance. split; [|by intros ->; rewrite decide_True].
  case_decide; [done|].
  destruct (get_edit_dist_table_exact s0 s1)
    as (t & -> & (Hdims & _) & _ & Hzero & _).
  simpl. rewrite (cell_nonneg_index t) by (unfold len; lia).
  unfold len. rewrite !Nat2Z.id. intros Hcorner.
  apply Hzero in Hcorner as [Hlen Htake].
  - rewrite !take_ge in Htake by (rewrite length_list_ascii; lia).
    rewrite <- (string_of_list_ascii_of_string s0),
            <- (string_of_list_ascii_of_string s1).
    by rewrite Htake.
  - destruct (String.length s0) as [|n] eqn:Hn; [by left|].
    right. right. left. unfold len. lia.
Qed.

(** X5: the early return of [edit_distance] on equal strings is not
    observable: the result is always the bottom-right cell of the table. *)
Theorem edit_distance_is_table_corner (s0 s1 : string) :
  edit_distance s0 s1
  = (t ← get_edit_dist_table s0 s1; cell t (len s0) (len s1)).
Proof.
  unfold edit_distance. case_decide as Heq; [|done]. subst s1.
  destruct (get_edit_dist_table_spec s0 s0) as (t & -> & ? & _ & _ & Hdiag).
  simpl. rewrite (cell_nonneg_index t) by (unfold len; lia).
  unfold len. rewrite Nat2Z.id. symmetry. by apply Hdiag.
Qed.

(** ** The list of transformations *)

(** X6: [get_transformation_list] never raises and every element of its
    result is one of "R", "T", "I", "D". *)
Theorem list_holds_operation_symbols_only (s0 s1 : string) :
  ∃ l, get_transformation_list s0 s1 = Some l
       ∧ Forall (λ x, x ∈ ["R"; "T"; "I"; "D"]) l.
Proof.
  destruct (get_transformation_list_total s0 s1) as [l Hl].
  exists l. split; [done|].
  by apply get_transformation_list_symbols in Hl as [? ?].
Qed.

(** X7: the list never has more elements than the two strings have
    characters together. *)
Theorem list_length_at_most_total_length (s0 s1 : string) :
  ∃ l, get_transformation_list s0 s1 = Some l
       ∧ Z.of_nat (length l) ≤ len s0 + len s1.
Proof.
  destruct (get_transformation_list_total s0 s1) as [l Hl].
  exists l. split; [done|].
  by apply get_transformation_list_symbols in Hl as [? ?].
Qed.

(** ** The player *)

(** X8: after [get_feedback] the guess itself is in the dictionary exactly
    when it was there before and [transforms] is the empty list: feedback
    with at least one operation removes the guess. *)
Theorem feedback_keeps_guess_iff_no_transform (self : DistlePlayer)
    (guess : string) (edit_dist : Z) (transforms : list string) :
  ∃ self', get_feedback self guess edit_dist transforms = Some self'
    ∧ (guess ∈ dictionary self'
       ↔ guess ∈ dictionary self ∧ transforms = []).
Proof.
  eexists. split; [apply get_feedback_spec|]. simpl.
  rewrite elem_of_filter, get_transformation_list_refl.
  split; intros [? ?]; split; congruence.
Qed.

(** X9: giving the same feedback a second time changes nothing, whatever
    [edit_dist] is passed: that argument is never looked at. *)
Theorem feedback_idempotent (self : DistlePlayer) (guess : string)
    (edit_dist edit_dist' : Z) (transforms : list string) :
  (self' ← get_feedback self guess edit_dist transforms;
   get_feedback self' guess edit_dist' transforms)
  = get_feedback self guess edit_dist transforms.
Proof.
  rewrite get_feedback_spec. simpl. rewrite get_feedback_spec. simpl.
  do 2 f_equal. apply set_eq. intros w. rewrite !elem_of_filter. tauto.
Qed.

(** X10: two feedbacks applied in either order leave the same player. *)
Theorem feedback_commutes (self : DistlePlayer) (guess1 guess2 : string)
    (dist1 dist2 : Z) (transforms1 transforms2 : list string) :
  (self' ← get_feedback self guess1 dist1 transforms1;
   get_feedback self' guess2 dist2 transforms2)
  = (self' ← get_feedback self guess2 dist2 transforms2;
     get_feedback self' guess1 dist1 transforms1).
Proof.
  rewrite !get_feedback_spec. simpl. rewrite !get_feedback_spec. simpl.
  do 2 f_equal. apply set_eq. intros w. rewrite !elem_of_filter. tauto.
Qed.

(** X11: feedback that holds a string other than "R", "T", "I", "D"
    empties the dictionary. *)
Theorem feedback_foreign_symbol (self : DistlePlayer) (guess : string)
    (edit_dist : Z) (transforms : list string) (x : string) :
  x ∈ transforms → x ∉ ["R"; "T"; "I"; "D"] →
  ∃ self', get_feedback self guess edit_dist transforms = Some self'
           ∧ dictionary self' = ∅.
Proof.
  intros Hx Hforeign. eexists. split; [apply get_feedback_spec|]. simpl.
  apply set_eq. intros w. rewrite elem_of_filter, elem_of_empty.
  split; [|done]. intros [Hlist _].
  apply get_transformation_list_symbols in Hlist as [Hall _].
  rewrite Forall_forall in Hall. by apply Hforeign, Hall.
Qed.

Lemma feedback_foreign_symbol_witness :
  "X" ∈ ["R"; "X"] ∧ ("X" ∉ ["R"; "T"; "I"; "D"])
  ∧ ∃ self', get_feedback (Build_DistlePlayer {["cat"]} ∅ 1 "cat")
               "cat" 2 ["R"; "X"] = Some self'
             ∧ dictionary self' = ∅.
Proof.
  assert ("X" ∈ ["R"; "X"]) as Hin by (right; left).
  assert ("X" ∉ ["R"; "T"; "I"; "D"]) as Hout.
  { intros H. repeat (apply elem_of_cons in H as [H|H]; [discriminate H|]).
    by apply elem_of_nil in H. }
  split; [done|]. split; [done|].
  exact (feedback_foreign_symbol _ "cat" 2 ["R"; "X"] "X" Hin Hout).
Defined.

(** X12: through any run of [get_feedback] calls whose feedback is the
    list from the guess to one same word of the dictionary, that word
    stays in the dictionary, and the dictionary never gains a word. *)
Theorem feedback_rounds_keep_secret (secret : string)
    (rounds : list (string * Z * list string)) (self : DistlePlayer) :
  secret ∈ dictionary self →
  Forall (λ '(guess, _, transforms),
            get_transformation_list guess secret = Some transforms)
    rounds →
  ∃ self', feedback_rounds rounds self = Some self'
           ∧ secret ∈ dictionary self'
           ∧ dictionary self' ⊆ dictionary self.
Proof. apply feedback_rounds_spec. Qed.

Lemma feedback_rounds_keep_secret_witness :
  "cot" ∈ dictionary (Build_DistlePlayer {["cot"]} ∅ 1 "cat")
  ∧ Forall (λ '(guess, _, transforms),
              get_transformation_list guess "cot" = Some transforms)
      [("cat", 1, ["R"])]
  ∧ ∃ self', feedback_rounds [("cat", 1, ["R"])]
               (Build_DistlePlayer {["cot"]} ∅ 1 "cat") = Some self'
             ∧ "cot" ∈ dictionary self'
             ∧ dictionary self'
               ⊆ dictionary (Build_DistlePlayer {["cot"]} ∅ 1 "cat").
Proof.
  assert ("cot" ∈ dictionary (Build_DistlePlayer {["cot"]} ∅ 1 "cat"))
    as Hin by (simpl; by apply elem_of_singleton).
  assert (Forall (λ '(guess, _, transforms),
                    get_transformation_list guess "cot" = Some transforms)
            [("cat", 1, ["R"])]) as Hall.
  { constructor; [by vm_compute|constructor]. }
  split; [done|]. split; [done|].
  exact (feedback_rounds_keep_secret "cot" _ _ Hin Hall).
Defined.

(** X13: [start_new_game] on an empty dictionary raises: the final
    [random.choice] has nothing to choose from. *)
Theorem start_new_game_empty (draw : nat) (max_guesses : Z) :
  start_new_game [] draw ∅ max_guesses = None.
Proof. done. Qed.

(** X14: on a dictionary that is not empty, whatever the iteration order
    and the random draw, [start_new_game] returns a player whose two
    dictionaries are the one given, whose counter is 0 and whose opening
    word is a word of the dictionary. *)
Theorem start_new_game_opening_word (order : list string) (draw : nat)
    (dictionary_ : gset string) (max_guesses : Z) :
  order ≡ₚ elements dictionary_ → dictionary_ ≠ ∅ →
  ∃ self, start_new_game order draw dictionary_ max_guesses = Some self
          ∧ dictionary self = dictionary_
          ∧ new_dict self = dictionary_
          ∧ total_guesses self = 0
          ∧ first_match self ∈ dictionary_.
Proof.
  intros Hperm Hne.
  destruct (start_new_game_spec order draw dictionary_ max_guesses)
    as (w & -> & Hw & _).
  { intros ->. apply Permutation_nil_l in Hperm. symmetry in Hperm.
    by apply elements_empty_iff, leibniz_equiv in Hperm. }
  eexists. split; [done|]. simpl. repeat (split; [done|]).
  rewrite Hperm in Hw. by apply elem_of_elements in Hw.
Qed.

Lemma start_new_game_opening_word_witness :
  elements ({["cat"]} : gset string) ≡ₚ elements ({["cat"]} : gset string)
  ∧ ({["cat"]} : gset string) ≠ ∅
  ∧ ∃ self, start_new_game (elements ({["cat"]} : gset string)) 0
              {["cat"]} 10 = Some self
            ∧ dictionary self = {["cat"]}
            ∧ new_dict self = {["cat"]}
            ∧ total_guesses self = 0
            ∧ first_match self ∈ ({["cat"]} : gset string).
Proof.
  assert (({["cat"]} : gset string) ≠ ∅) as Hne.
  { intros H. assert ("cat" ∈ (∅ : gset string)) as Hin.
    { rewrite <- H. by apply elem_of_singleton. }
    by apply elem_of_empty in Hin. }
  split; [reflexivity|]. split; [done|].
  exact (start_new_game_opening_word _ 0 {["cat"]} 10
           (reflexivity _) Hne).
Defined.

(** X15: the opening word has a most frequent length: no length is shared
    by more words of the dictionary than the length of the opening
    word. *)
Theorem start_new_game_most_common_length (order : list string)
    (draw : nat) (dictionary_ : gset string) (max_guesses : Z) :
  order ≡ₚ elements dictionary_ → dictionary_ ≠ ∅ →
  ∃ self, start_new_game order draw dictionary_ max_guesses = Some self
          ∧ ∀ k, (size (filter (λ w, len w = k) dictionary_)
                  ≤ size (filter (λ w, len w = len (first_match self))
                            dictionary_))%nat.
Proof.
  intros Hperm Hne.
  destruct (start_new_game_spec order draw dictionary_ max_guesses)
    as (w & -> & _ & Hmost).
  { intros ->. apply Permutation_nil_l in Hperm. symmetry in Hperm.
    by apply elements_empty_iff, leibniz_equiv in Hperm. }
  eexists. split; [done|]. simpl. intros k.
  rewrite !(size_filter_order _ order) by done.
  specialize (Hmost k). simpl in Hmost. lia.
Qed.

Lemma start_new_game_most_common_length_witness :
  elements ({["cat"]} : gset string) ≡ₚ elements ({["cat"]} : gset string)
  ∧ ({["cat"]} : gset string) ≠ ∅
  ∧ ∃ self, start_new_game (elements ({["cat"]} : gset string)) 0
              {["cat"]} 10 = Some self
            ∧ ∀ k, (size (filter (λ w, len w = k)
                            ({["cat"]} : gset string))
                    ≤ size (filter (λ w, len w = len (first_match self))
                              ({["cat"]} : gset string)))%nat.
Proof.
  assert (({["cat"]} : gset string) ≠ ∅) as Hne.
  { intros H. assert ("cat" ∈ (∅ : gset string)) as Hin.
    { rewrite <- H. by apply elem_of_singleton. }
    by apply elem_of_empty in Hin. }
  split; [reflexivity|]. split; [done|].
  exact (start_new_game_most_common_length _ 0 {["cat"]} 10
           (reflexivity _) Hne).
Defined.

Lemma later_guess_spec_aux (self : DistlePlayer) (draw : nat) :
  total_guesses self ≠ 0 →
  match make_guess self draw with
  | Some (guess, self') =>
      guess ∈ dictionary self
      ∧ dictionary self' = dictionary self
      ∧ total_guesses self' = total_guesses self + 1
  | None => dictionary self = ∅
  end.
Proof.
  intros Hcount. unfold make_guess. rewrite decide_False by done.
  destruct (elements (dictionary self)) as [|x xs] eqn:Helems.
  - simpl. by apply elements_empty_iff, leibniz_equiv in Helems.
  - destruct (random_choice_elem_of draw (x :: xs)) as (w & -> & Hw); [done|].
    simpl. split; [|done]. rewrite <- Helems in Hw.
    by apply elem_of_elements in Hw.
Qed.

(** X16: the first [make_guess] after [start_new_game] returns the opening
    word, a word of the dictionary, leaves the dictionary as it is and sets
    the counter to 1. *)
Theorem first_guess_is_opening_word (order : list string)
    (draw draw' : nat) (dictionary_ : gset string) (max_guesses : Z) :
  order ≡ₚ elements dictionary_ → dictionary_ ≠ ∅ →
  ∃ self guess self',
    start_new_game order draw dictionary_ max_guesses = Some self
    ∧ make_guess self draw' = Some (guess, self')
    ∧ guess = first_match self
    ∧ guess ∈ dictionary_
    ∧ dictionary self' = dictionary_
    ∧ total_guesses self' = 1.
Proof.
  intros Hperm Hne.
  destruct (start_new_game_spec order draw dictionary_ max_guesses)
    as (w & -> & Hw & _).
  { intros ->. apply Permutation_nil_l in Hperm. symmetry in Hperm.
    by apply elements_empty_iff, leibniz_equiv in Hperm. }
  eexists _, w, _. split; [done|]. unfold make_guess. simpl.
  split; [done|]. repeat (split; [done|]). split; [|done].
  rewrite Hperm in Hw. by apply elem_of_elements in Hw.
Qed.

Lemma first_guess_is_opening_word_witness :
  elements ({["cat"]} : gset string) ≡ₚ elements ({["cat"]} : gset string)
  ∧ ({["cat"]} : gset string) ≠ ∅
  ∧ ∃ self guess self',
      start_new_game (elements ({["cat"]} : gset string)) 0 {["cat"]} 10
      = Some self
      ∧ make_guess self 3 = Some (guess, self')
      ∧ guess = first_match self
      ∧ guess ∈ ({["cat"]} : gset string)
      ∧ dictionary self' = {["cat"]}
      ∧ total_guesses self' = 1.
Proof.
  assert (({["cat"]} : gset string) ≠ ∅) as Hne.
  { intros H. assert ("cat" ∈ (∅ : gset string)) as Hin.
    { rewrite <- H. by apply elem_of_singleton. }
    by apply elem_of_empty in Hin. }
  split; [reflexivity|]. split; [done|].
  exact (first_guess_is_opening_word _ 0 3 {["cat"]} 10
           (reflexivity _) Hne).
Defined.

(** X17: once the counter is not 0, [make_guess] returns a word of the
    current dictionary, keeps the dictionary and adds 1 to the counter; it
    raises exactly when the dictionary is empty. *)
Theorem later_guess_from_dictionary (self : DistlePlayer) (draw : nat) :
  total_guesses self ≠ 0 →
  match make_guess self draw with
  | Some (guess, self') =>
      guess ∈ dictionary self
      ∧ dictionary self' = dictionary self
      ∧ total_guesses self' = total_guesses self + 1
  | None => dictionary self = ∅
  end.
Proof. apply later_guess_spec_aux. Qed.

Lemma later_guess_from_dictionary_witness :
  total_guesses (Build_DistlePlayer {["cot"]} ∅ 1 "cat") ≠ 0
  ∧ match make_guess (Build_DistlePlayer {["cot"]} ∅ 1 "cat") 7 with
    | Some (guess, self') =>
        guess ∈ dictionary (Build_DistlePlayer {["cot"]} ∅ 1 "cat")
        ∧ dictionary self'
          = dictionary (Build_DistlePlayer {["cot"]} ∅ 1 "cat")
        ∧ total_guesses self'
          = total_guesses (Build_DistlePlayer {["cot"]} ∅ 1 "cat") + 1
    | None => dictionary (Build_DistlePlayer {["cot"]} ∅ 1 "cat") = ∅
    end.
Proof.
  assert (total_guesses (Build_DistlePlayer {["cot"]} ∅ 1 "cat") ≠ 0)
    as Hcount by (simpl; lia).
  split; [done|].
  exact (later_guess_from_dictionary _ 7 Hcount).
Defined.

(** X18: a guess answered with a list that is not empty is never guessed
    again by the next [make_guess]: the word returned is another word of
    the dictionary; [make_guess] raises when no word of the dictionary
    agrees with the feedback. *)
Theorem refuted_guess_not_repeated (self : DistlePlayer) (guess : string)
    (edit_dist : Z) (transforms : list string) (draw : nat) :
  total_guesses self ≠ 0 → transforms ≠ [] →
  match (self' ← get_feedback self guess edit_dist transforms;
         make_guess self' draw) with
  | Some (next, _) =>
      next ≠ guess ∧ next ∈ dictionary self
      ∧ get_transformation_list guess next = Some transforms
  | None =>
      ∀ w, w ∈ dictionary self →
           get_transformation_list guess w ≠ Some transforms
  end.
Proof.
  intros Hcount Hne. rewrite get_feedback_spec. simpl.
  set (self' := Build_DistlePlayer _ _ _ _).
  pose proof (later_guess_spec_aux self' draw) as Hguess.
  unfold self' in Hguess at 1. simpl in Hguess. specialize (Hguess Hcount).
  destruct (make_guess self' draw) as [[next self'']|].
  - destruct Hguess as [Hnext _]. simpl in Hnext.
    apply elem_of_filter in Hnext as [Hlist Hin].
    split; [|done]. intros ->.
    rewrite get_transformation_list_refl in Hlist. congruence.
  - simpl in Hguess. intros w Hw Hlist.
    assert (w ∈ (∅ : gset string)) as Hempty.
    { rewrite <- Hguess. by apply elem_of_filter. }
    by apply elem_of_empty in Hempty.
Qed.

Lemma refuted_guess_not_repeated_witness :
  total_guesses (Build_DistlePlayer {["cat"; "cot"]} ∅ 1 "cat") ≠ 0
  ∧ ["R"] ≠ ([] : list string)
  ∧ match (self' ← get_feedback
                     (Build_DistlePlayer {["cat"; "cot"]} ∅ 1 "cat")
                     "cat" 1 ["R"];
           make_guess self' 0) with
    | Some (next, _) =>
        next ≠ "cat"
        ∧ next ∈ dictionary (Build_DistlePlayer {["cat"; "cot"]} ∅ 1 "cat")
        ∧ get_transformation_list "cat" next = Some ["R"]
    | None =>
        ∀ w, w ∈ dictionary (Build_DistlePlayer {["cat"; "cot"]} ∅ 1 "cat") →
             get_transformation_list "cat" w ≠ Some ["R"]
    end.
Proof.
  assert (total_guesses (Build_DistlePlayer {["cat"; "cot"]} ∅ 1 "cat") ≠ 0)
    as Hcount by (simpl; lia).
  assert (["R"] ≠ ([] : list string)) as Hne by discriminate.
  split; [done|]. split; [done|].
  exact (refuted_guess_not_repeated _ "cat" 1 ["R"] 0 Hcount Hne).
Defined.

(** ** The backtrace on a table handed in *)

(** The content of the shared list after a trace is the content before it
    followed by what the same trace appends to an empty list. *)
Lemma get_transformation_prefix (s0 s1 : string) (t : table) (fuel : nat) :
  ∀ (i j : Z) (l : list string),
    snd <$> get_transformation fuel s0 s1 i j l t
    = (λ final, l ++ final) <$>
        (snd <$> get_transformation fuel s0 s1 i j [] t).
Proof.
  induction fuel as [|fuel IH]; intros i j l; [done|].
  assert (∀ (i' j' : Z) (x : string),
    snd <$> get_transformation fuel s0 s1 i' j' (l ++ [x]) t
    = (λ final, l ++ final) <$>
        (snd <$> get_transformation fuel s0 s1 i' j' ([] ++ [x]) t))
    as Hstep.
  { intros i' j' x. rewrite (IH i' j' (l ++ [x])), (IH i' j' ([] ++ [x])).
    destruct (get_transformation fuel s0 s1 i' j' [] t) as [[ret final]|];
      simpl; [|done].
    by rewrite <- app_assoc. }
  cbn [get_transformation].
  destruct (decide (i = 0 ∧ j = 0)) as [|Hnz].
  { simpl. by rewrite app_nil_r. }
  destruct (cell t i j) as [cur|]; simpl; [|done].
  destruct (cell t (i - 1) j) as [del|]; simpl; [|done].
  destruct (cell t i (j - 1)) as [ins|]; simpl; [|done].
  destruct (cell t (i - 1) (j - 1)) as [r|]; simpl; [|done].
  destruct (str_getitem s0 (i - 1)) as [a|]; simpl; [|done].
  destruct (str_getitem s1 (j - 1)) as [b|]; simpl; [|done].
  destruct (cell t (i - 2) (j - 2)) as [tr|]; simpl; [|done].
  destruct (decide (_ ∧ (i > 0 ∧ j > 0))) as [_|_].
  { destruct (decide (a ≠ b)); [apply Hstep|apply IH]. }
  assert (snd <$>
      (if decide (ins ≤ cur ∧ j > 0)
       then get_transformation fuel s0 s1 i (j - 1) (l ++ ["I"]) t
       else if decide (del ≤ cur ∧ i > 0)
       then get_transformation fuel s0 s1 (i - 1) j (l ++ ["D"]) t
       else Some ([], l))
    = (λ final, l ++ final) <$> (snd <$>
      (if decide (ins ≤ cur ∧ j > 0)
       then get_transformation fuel s0 s1 i (j - 1) ([] ++ ["I"]) t
       else if decide (del ≤ cur ∧ i > 0)
       then get_transformation fuel s0 s1 (i - 1) j ([] ++ ["D"]) t
       else Some ([], [])))) as Hrest.
  { destruct (decide (ins ≤ cur ∧ j > 0)); [apply Hstep|].
    destruct (decide (del ≤ cur ∧ i > 0)); [apply Hstep|].
    simpl. by rewrite app_nil_r. }
  destruct (decide (tr ≤ cur)); simpl; [|apply Hrest].
  destruct (decide (i > 1)); simpl; [|apply Hrest].
  destruct (decide (j > 1)); simpl; [|apply Hrest].
  destruct (str_getitem s1 (j - 2)) as [b1|]; simpl; [|done].
  destruct (decide (a = b1)); simpl; [|apply Hrest].
  destruct (str_getitem s0 (i - 2)) as [a2|]; simpl; [|done].
  destruct (bool_decide (a2 = b)); simpl; [apply Hstep|apply Hrest].
Qed.

(** X19: [transformation_list_with_table] extends the list it is given:
    whatever the table, the result is that list followed by the result
    for an empty list, and it raises exactly when that one does. *)
Theorem given_list_is_extended (s0 s1 : string) (l : list string)
    (t : table) :
  transformation_list_with_table s0 s1 l t
  = (λ suffix, l ++ suffix) <$> transformation_list_with_table s0 s1 [] t.
Proof.
  unfold transformation_list_with_table.
  destruct (decide (len s1 ≤ 0)).
  { unfold len. rewrite Nat2Z.id, !append_while_replicate. done. }
  destruct (decide (len s0 ≤ 0)).
  { unfold len. rewrite Nat2Z.id, !append_while_replicate. done. }
  pose proof (get_transformation_prefix s0 s1 t
                (Z.to_nat (len s0 + len s1 + 1)) (len s0) (len s1) l)
    as Hprefix.
  destruct (get_transformation _ _ _ _ _ l _) as [[ret final]|];
    destruct (get_transformation _ _ _ _ _ [] _) as [[ret' final']|];
    simpl in *; congruence.
Qed.

(** X20: on a table with [len(s0) + 1] rows of [len(s1) + 1] cells
    [transformation_list_with_table] never raises, whatever the cells
    hold. *)
Theorem right_shape_never_raises (s0 s1 : string) (l : list string)
    (t : table) :
  table_dims (String.length s0) (String.length s1) t →
  is_Some (transformation_list_with_table s0 s1 l t).
Proof.
  intros Hdims. unfold transformation_list_with_table.
  destruct (decide (len s1 ≤ 0)); [eauto|].
  destruct (decide (len s0 ≤ 0)); [eauto|].
  assert (1 ≤ String.length s0)%nat as HR by (unfold len in *; lia).
  assert (1 ≤ String.length s1)%nat as HC by (unfold len in *; lia).
  destruct (get_transformation_total s0 s1 t Hdims HR HC
              (Z.to_nat (len s0 + len s1 + 1)) (len s0) (len s1) l)
    as [[ret final] Hrun]; unfold len in *; try lia.
  rewrite Hrun. simpl. eauto.
Qed.

Lemma right_shape_never_raises_witness :
  table_dims (String.length "ab") (String.length "c")
    [[7; 7]; [0; 9]; [3; 3]]
  ∧ is_Some (transformation_list_with_table "ab" "c" ["I"]
               [[7; 7]; [0; 9]; [3; 3]]).
Proof.
  assert (table_dims (String.length "ab") (String.length "c")
            [[7; 7]; [0; 9]; [3; 3]]) as Hdims.
  { split; [reflexivity|]. repeat constructor. }
  split; [done|].
  exact (right_shape_never_raises "ab" "c" ["I"] _ Hdims).
Defined.

(** * The triangle inequality *)

(** ** The distance without transposition *)

Lemma lev_nil_r (x : list ascii) : lev x [] = Z.of_nat (length x).
Proof. by destruct x. Qed.

Lemma lev_cons (a b : ascii) (x y : list ascii) :
  lev (a :: x) (b :: y)
  = Z.min (Z.min (lev x (b :: y) + 1) (lev (a :: x) y + 1))
      (lev x y + (if decide (a = b) then 0 else 1)).
Proof. done. Qed.

Lemma lev_bounds (x y : list ascii) :
  Z.abs (Z.of_nat (length x) - Z.of_nat (length y)) ≤ lev x y
  ∧ lev x y ≤ Z.of_nat (length x) + Z.of_nat (length y).
Proof.
  revert y. induction x as [|a x IHx]; intros y.
  { cbn [lev length]. lia. }
  induction y as [|b y IHy].
  { rewrite lev_nil_r. cbn [length]. lia. }
  rewrite lev_cons.
  pose proof (IHx (b :: y)) as H1. pose proof (IHx y) as H2.
  cbn [length] in *. destruct (decide (a = b)); lia.
Qed.

Lemma lev_triangle (n : nat) :
  ∀ x y z : list ascii,
    (length x + length y + length z < n)%nat →
    lev x z ≤ lev x y + lev y z.
Proof.
  induction n as [|n IH]; intros x y z Hn; [lia|].
  destruct x as [|a x].
  { pose proof (lev_bounds y z). cbn [lev length] in *. lia. }
  destruct y as [|b y].
  { pose proof (lev_bounds (a :: x) z). rewrite lev_nil_r.
    cbn [lev length] in *. lia. }
  destruct z as [|c z].
  { pose proof (lev_bounds (a :: x) (b :: y)). rewrite !lev_nil_r.
    cbn [length] in *. lia. }
  cbn [length] in Hn.
  pose proof (IH x (b :: y) (c :: z)) as H1.
  pose proof (IH (a :: x) (b :: y) z) as H2.
  pose proof (IH (a :: x) y (c :: z)) as H3.
  pose proof (IH (a :: x) y z) as H4.
  pose proof (IH x y (c :: z)) as H5.
  pose proof (IH x y z) as H6.
  cbn [length] in H1, H2, H3, H4, H5, H6.
  specialize (H1 ltac:(lia)). specialize (H2 ltac:(lia)).
  specialize (H3 ltac:(lia)). specialize (H4 ltac:(lia)).
  specialize (H5 ltac:(lia)). specialize (H6 ltac:(lia)).
  rewrite (lev_cons a c x z), (lev_cons a b x y), (lev_cons b c y z) in *.
  destruct (decide (a = b)), (decide (b = c)), (decide (a = c));
    first [lia | congruence].
Qed.

Lemma prefix_lev_step (row_str col_str : string) (a b : nat) (x y : ascii) :
  symbol_at row_str a = Some x → symbol_at col_str b = Some y →
  prefix_lev row_str col_str (S a) (S b)
  = Z.min (Z.min (prefix_lev row_str col_str a (S b) + 1)
             (prefix_lev row_str col_str (S a) b + 1))
      (prefix_lev row_str col_str a b + (if decide (x = y) then 0 else 1)).
Proof.
  unfold symbol_at, prefix_lev. intros Hx Hy.
  rewrite (take_S_r _ _ _ Hx), (take_S_r _ _ _ Hy), !reverse_snoc.
  apply lev_cons.
Qed.

Lemma prefix_lev_row0 (row_str col_str : string) (b : nat) :
  (b ≤ String.length col_str)%nat →
  prefix_lev row_str col_str 0 b = Z.of_nat b.
Proof.
  intros Hb. unfold prefix_lev. rewrite take_0.
  change (reverse []) with (@nil ascii). cbn [lev].
  rewrite length_reverse, length_take, length_list_ascii. lia.
Qed.

Lemma prefix_lev_col0 (row_str col_str : string) (a : nat) :
  (a ≤ String.length row_str)%nat →
  prefix_lev row_str col_str a 0 = Z.of_nat a.
Proof.
  intros Ha. unfold prefix_lev. rewrite take_0.
  change (reverse []) with (@nil ascii). rewrite lev_nil_r.
  rewrite length_reverse, length_take, length_list_ascii. lia.
Qed.

Lemma transposition_free_cell (row_str col_str : string) (i j : Z) :
  transposition_free row_str col_str = true →
  1 ≤ i ≤ len row_str → 1 ≤ j ≤ len col_str →
  transposition_test row_str col_str i j = false.
Proof.
  unfold transposition_free. intros Hfree Hi Hj.
  rewrite forallb_forall in Hfree.
  specialize (Hfree i). rewrite forallb_forall in Hfree.
  apply negb_true_iff, Hfree.
  - apply list_elem_of_In, elem_of_seqZ. lia.
  - apply list_elem_of_In, elem_of_seqZ. lia.
Qed.

(** ** The table against the distance without transposition *)

Section against_lev.
Context (row_str col_str : string).
Let R := String.length row_str.
Let C := String.length col_str.

Lemma fill_cell_step_lev (t : table) (i j : Z) :
  1 ≤ i ≤ Z.of_nat R → 1 ≤ j ≤ Z.of_nat C →
  lev_upto row_str col_str i j t →
  ∃ t', fill_cell row_str col_str (len row_str) (len col_str) i j t
          = Some t'
        ∧ lev_upto row_str col_str i (j + 1) t'.
Proof.
  intros Hi Hj [Hexact Hlev].
  destruct (fill_cell_step_exact row_str col_str t i j Hi Hj Hexact)
    as (t' & Hrun & Hexact').
  exists t'. split; [done|]. split; [done|].
  destruct Hexact as ((Hdims & Hnn & _) & Hbound & _).
  destruct (fill_cell_exact row_str col_str t i j Hdims Hi Hj)
    as (d & ins & r & x & a & b & a2 & b1 & Hd & Hins & Hr & Hx
        & Ha & Hb & Ha2 & Hb1 & Hfill).
  rewrite Hfill in Hrun.
  set (tv := if decide (i + j > 2 ∧ a = b1 ∧ a2 = b) then x + 1
             else len row_str + len col_str + 1) in *.
  set (rv := if decide (a ≠ b) then r + 1 else r) in *.
  set (v := Z.min (Z.min (Z.min (d + 1) (ins + 1)) rv) tv) in *.
  destruct (set_cell_spec R C t Hdims i j v)
    as (t'' & Hrun' & _ & Hnew & Hother & _); [lia..|].
  assert (t'' = t') as -> by congruence. clear Hrun'.
  rewrite (cell_nonneg_index t) in Hd, Hins, Hr by lia.
  rewrite str_getitem_symbol_at in Ha, Hb by lia.
  intros a' b' v' Hvis Hv'.
  destruct (decide ((a', b') = (Z.to_nat i, Z.to_nat j))) as [[= -> ->]|Hne].
  - rewrite Hnew in Hv'. injection Hv' as <-.
    destruct (Hlev (Z.to_nat (i - 1)) (Z.to_nat j) d) as [Hd1 Hd2];
      [right; right; left; lia|done|].
    destruct (Hlev (Z.to_nat i) (Z.to_nat (j - 1)) ins) as [Hins1 Hins2];
      [right; right; right; lia|done|].
    destruct (Hlev (Z.to_nat (i - 1)) (Z.to_nat (j - 1)) r) as [Hr1 Hr2];
      [right; right; left; lia|done|].
    assert (rv = r + (if decide (a = b) then 0 else 1)) as Hrv.
    { unfold rv. destruct (decide (a = b)) as [->|Hab].
      - rewrite decide_False; [lia|]. intros Hne'. by apply Hne'.
      - rewrite decide_True by done. done. }
    replace (Z.to_nat i) with (S (Z.to_nat (i - 1))) in * by lia.
    replace (Z.to_nat j) with (S (Z.to_nat (j - 1))) in * by lia.
    rewrite (prefix_lev_step _ _ _ _ _ _ Ha Hb).
    split; [unfold v; lia|].
    intros Hfree. specialize (Hd2 Hfree). specialize (Hins2 Hfree).
    specialize (Hr2 Hfree).
    assert (tv = len row_str + len col_str + 1) as Htv.
    { unfold tv. rewrite decide_False; [done|]. intros (Hgt & Hab1 & Hab2).
      assert (transposition_test row_str col_str i j = false) as Htest.
      { apply transposition_free_cell; [done|unfold len, R, C in *; lia..]. }
      unfold transposition_test in Htest.
      apply bool_decide_eq_false in Htest. apply Htest.
      split; [done|]. rewrite Ha2, Hb1.
      rewrite <- (Z2Nat.id (i - 1)), <- (Z2Nat.id (j - 1)) by lia.
      rewrite !str_getitem_symbol_at by lia. rewrite !Nat2Z.id.
      rewrite Ha, Hb. by subst. }
    apply Hbound in Hd. unfold v. rewrite Htv. unfold len. fold R C. lia.
  - rewrite Hother in Hv' by done. apply Hlev; [|done].
    destruct Hvis as [?|[?|Hvis]]; [by left|by right; left|].
    right. right. destruct Hvis as [?|[? ?]]; [by left|].
    right. split; [done|].
    assert (Z.of_nat b' ≠ j) by (intros ?; apply Hne; f_equal; lia). lia.
Qed.

Lemma lev_upto_next_row (i : Z) (t : table) :
  1 ≤ i →
  lev_upto row_str col_str i (len col_str + 1) t →
  lev_upto row_str col_str (i + 1) 1 t.
Proof.
  intros Hi [Hexact Hlev]. split; [by apply exact_upto_next_row|].
  intros a b v Hab Hv. apply Hlev; [|done].
  destruct Hexact as ((Hdims & _) & _).
  destruct (entry_Some_range _ _ _ _ _ _ Hdims Hv) as [_ ?].
  destruct Hab as [?|[?|[?|[? ?]]]]; [by left|by right; left| |right; left; lia].
  right. right. unfold visited, len. lia.
Qed.

(** The bottom-right cell never exceeds the distance without
    transposition and equals it when the transposition test passes in no
    cell. *)
Lemma table_corner_lev :
  ∃ t v, get_edit_dist_table row_str col_str = Some t
         ∧ cell t (len row_str) (len col_str) = Some v
         ∧ v ≤ lev (reverse (list_ascii_of_string row_str))
                   (reverse (list_ascii_of_string col_str))
         ∧ (transposition_free row_str col_str = true →
            v = lev (reverse (list_ascii_of_string row_str))
                    (reverse (list_ascii_of_string col_str))).
Proof.
  unfold get_edit_dist_table.
  destruct (borders_filled row_str col_str) as (t1 & t2 & -> & Ht2 & Hstart).
  simpl. rewrite Ht2. simpl.
  destruct (for_each_range_inv
    (λ i t, lev_upto row_str col_str i 1 t)
    (λ row_index t,
       for_each (range 1 (len col_str + 1))
         (λ col_index t', fill_cell row_str col_str (len row_str)
                            (len col_str) row_index col_index t') t)
    1 (len row_str + 1) t2) as (t & Ht & Hexact & Hlev).
  { unfold len. lia. }
  { split; [done|]. intros a b v Hab Hv.
    destruct Hstart as ((Hdims & _ & [Hrow0 Hcol0] & _) & _).
    destruct (entry_Some_range _ _ _ _ _ _ Hdims Hv) as [? ?].
    assert (a = 0%nat ∨ b = 0%nat) as [->| ->].
    { destruct Hab as [?|[?|[?|[? ?]]]]; lia. }
    - rewrite Hrow0 in Hv by done. injection Hv as <-.
      by rewrite prefix_lev_row0.
    - rewrite Hcol0 in Hv by done. injection Hv as <-.
      by rewrite prefix_lev_col0. }
  { intros i t Hi Hinv.
    destruct (for_each_range_inv
      (λ j t', lev_upto row_str col_str i j t')
      (λ col_index t', fill_cell row_str col_str (len row_str)
                         (len col_str) i col_index t')
      1 (len col_str + 1) t) as (t' & -> & Hinv').
    { unfold len. lia. }
    { done. }
    { intros j t' Hj.
      apply fill_cell_step_lev; unfold R, C; unfold len in Hi, Hj; lia. }
    exists t'. split; [done|]. apply lev_upto_next_row; [lia|done]. }
  destruct Hexact as ((Hdims & _) & _).
  destruct (entry_is_Some R C t Hdims R C) as [v Hv]; [done..|].
  exists t, v. split; [done|]. split.
  { rewrite (cell_nonneg_index t) by (unfold len; lia).
    unfold len. by rewrite !Nat2Z.id. }
  destruct (Hlev R C v) as [Hle Heq]; [|done|].
  { right. right. left. unfold len. fold R. lia. }
  unfold prefix_lev in Hle, Heq.
  rewrite !take_ge in Hle, Heq by (rewrite length_list_ascii; done).
  done.
Qed.
End against_lev.

Lemma edit_distance_corner (s0 s1 : string) :
  edit_distance s0 s1
  = (t ← get_edit_dist_table s0 s1; cell t (len s0) (len s1)).
Proof.
  unfold edit_distance. case_decide as Heq; [|done]. subst s1.
  destruct (get_edit_dist_table_spec s0 s0) as (t & -> & ? & _ & _ & Hdiag).
  simpl. rewrite (cell_nonneg_index t) by (unfold len; lia).
  unfold len. rewrite Nat2Z.id. symmetry. by apply Hdiag.
Qed.

Lemma edit_distance_lev (s0 s1 : string) :
  ∃ d, edit_distance s0 s1 = Some d
       ∧ d ≤ lev (reverse (list_ascii_of_string s0))
                 (reverse (list_ascii_of_string s1))
       ∧ (transposition_free s0 s1 = true →
          d = lev (reverse (list_ascii_of_string s0))
                  (reverse (list_ascii_of_string s1))).
Proof.
  rewrite edit_distance_corner.
  destruct (table_corner_lev s0 s1) as (t & v & -> & Hv & ? & ?).
  exists v. done.
Qed.

(** ** The claim *)

(** C5, as stated, fails on "ca", "ac", "abc": the distance from "ca" to
    "abc" is 3, while the distances from "ca" to "ac" (one transposition)
    and from "ac" to "abc" (one insertion) are 1 and 1.  The three tables
    satisfy the stated recurrence in every cell, so the failure is the
    recurrence's own: a transposed pair cannot be edited again. *)
Lemma triangle_inequality_counterexample :
  edit_distance "ca" "abc" = Some 3
  ∧ edit_distance "ca" "ac" = Some 1
  ∧ edit_distance "ac" "abc" = Some 1
  ∧ ¬ (3 ≤ 1 + 1)
  ∧ (t ← get_edit_dist_table "ca" "abc";
     Some (recurrence_everywhere t "ca" "abc")) = Some true
  ∧ (t ← get_edit_dist_table "ca" "ac";
     Some (recurrence_everywhere t "ca" "ac")) = Some true
  ∧ (t ← get_edit_dist_table "ac" "abc";
     Some (recurrence_everywhere t "ac" "abc")) = Some true.
Proof. by vm_compute. Qed.

(** C5 (amended): when the transposition test of [get_edit_dist_table]
    passes in no cell of the table for (s0, s1) and in no cell of the table
    for (s1, s2), the three distances are returned and
    [edit_distance(s0, s2) ≤ edit_distance(s0, s1) + edit_distance(s1, s2)].
    The pair (s0, s2) is not restricted. *)
Theorem triangle_inequality_without_transposition (s0 s1 s2 : string) :
  transposition_free s0 s1 = true →
  transposition_free s1 s2 = true →
  ∃ d02 d01 d12,
    edit_distance s0 s2 = Some d02
    ∧ edit_distance s0 s1 = Some d01
    ∧ edit_distance s1 s2 = Some d12
    ∧ d02 ≤ d01 + d12.
Proof.
  intros Hfree01 Hfree12.
  destruct (edit_distance_lev s0 s2) as (d02 & H02 & Hle02 & _).
  destruct (edit_distance_lev s0 s1) as (d01 & H01 & _ & Heq01).
  destruct (edit_distance_lev s1 s2) as (d12 & H12 & _ & Heq12).
  exists d02, d01, d12. repeat (split; [done|]).
  rewrite (Heq01 Hfree01), (Heq12 Hfree12).
  etrans; [apply Hle02|].
  eapply (lev_triangle (S _)). apply Nat.lt_succ_diag_r.
Qed.

Lemma triangle_inequality_without_transposition_witness :
  transposition_free "cat" "cart" = true
  ∧ transposition_free "cart" "dirt" = true
  ∧ ∃ d02 d01 d12,
      edit_distance "cat" "dirt" = Some d02
      ∧ edit_distance "cat" "cart" = Some d01
      ∧ edit_distance "cart" "dirt" = Some d12
      ∧ d02 ≤ d01 + d12.
Proof.
  assert (transposition_free "cat" "cart" = true) as H01 by (by vm_compute).
  assert (transposition_free "cart" "dirt" = true) as H12 by (by vm_compute).
  split; [done|]. split; [done|].
  exact (triangle_inequality_without_transposition "cat" "cart" "dirt"
           H01 H12).
Defined.
